(** * rBostonBot: a shallow embedding of [bostonbot.py]

    The bot polls two HTTP feeds (MBTA alerts, weather), composes one status
    comment, creates or edits that comment in the pinned weekly thread of a
    subreddit, and sweeps the moderation queue.  The Python code is embedded
    as functions in a state-and-exception monad over an explicit [world]
    holding the remote platform and the feeds; every run also yields its
    observable trace (console output, log file lines, sleeps). *)

From Stdlib Require Import ZArith String Ascii List Bool Lia DecimalString.
From stdpp Require Import base option list strings gmap.

Local Open Scope Z_scope.
Local Open Scope string_scope.
Local Open Scope list_scope.

(** ** Python strings *)

Module PyStr.

Definition nl : string := String (ascii_of_nat 10) EmptyString.

(** [c.lower()] on one character.  Text is kept as a byte string; only the
    ASCII capitals change, which is all that matters for finding the ASCII
    word "change" in the lowered text. *)
Definition lower_ascii (c : ascii) : ascii :=
  let n := nat_of_ascii c in
  if (65 <=? n)%nat && (n <=? 90)%nat then ascii_of_nat (n + 32) else c.

(** [s.lower()] *)
Fixpoint lower (s : string) : string :=
  match s with
  | EmptyString => EmptyString
  | String c s' => String (lower_ascii c) (lower s')
  end.

(** [s.startswith(p)] *)
Fixpoint startswith (p s : string) : bool :=
  match p, s with
  | EmptyString, _ => true
  | String _ _, EmptyString => false
  | String a p', String b s' => if Ascii.eqb a b then startswith p' s' else false
  end.

(** [sub in s] *)
Fixpoint str_in (sub s : string) : bool :=
  match s with
  | EmptyString => startswith sub EmptyString
  | String _ s' => startswith sub s || str_in sub s'
  end.

(** [str(n)] for an [int] *)
Definition str_of_Z (n : Z) : string := NilZero.string_of_int (Z.to_int n).

(** [str(x)] for an optional text field: a missing key read with
    [dict.get] is [None], which an f-string renders as "None". *)
Definition str_of_opt (o : option string) : string :=
  match o with
  | Some s => s
  | None => "None"
  end.

Definition is_space (c : ascii) : bool :=
  let n := nat_of_ascii c in
  ((9 <=? n)%nat && (n <=? 13)%nat) || ((28 <=? n)%nat && (n <=? 32)%nat).

Fixpoint lstrip (s : string) : string :=
  match s with
  | EmptyString => EmptyString
  | String c s' => if is_space c then lstrip s' else s
  end.

(** [rstrip] drops the trailing run of white space. *)
Fixpoint rstrip (s : string) : string :=
  match s with
  | EmptyString => EmptyString
  | String c s' =>
      match rstrip s' with
      | EmptyString => if is_space c then EmptyString else String c EmptyString
      | r => String c r
      end
  end.

(** [s.strip()], for the ASCII white space (tab to carriage return, the
    four separators 28-31, and the space).  Python also strips the white
    space outside ASCII (such as U+00A0), which this byte-string model
    leaves in place. *)
Definition strip (s : string) : string := rstrip (lstrip s).

End PyStr.
Import PyStr.

(** ** Exceptions and the process state *)

(** The handlers of the program tell apart [praw.exceptions.PRAWException],
    the rest of [Exception], and [SystemExit], which derives from
    [BaseException] only and so passes every [except Exception]. *)
Inductive exn_class := PRAWException | StdException.

Inductive exn :=
| Exception (cls : exn_class) (msg : string)
| SystemExit (code : option Z).

(** [str(e)], as interpolated by the handlers' f-strings. *)
Definition str_of_exn (e : exn) : string :=
  match e with
  | Exception _ msg => msg
  | SystemExit None => ""
  | SystemExit (Some n) => str_of_Z n
  end.

(** Status with which the interpreter ends when [e] reaches the top level:
    [SystemExit] without a code, as raised by a bare [exit()], is status 0;
    with an integer code the low 8 bits; a traceback is status 1. *)
Definition exit_status (e : exn) : Z :=
  match e with
  | SystemExit None => 0
  | SystemExit (Some n) => n mod 256
  | Exception _ _ => 1
  end.

Inductive outcome (A : Type) :=
| Returns (a : A)
| Raises (e : exn).
Arguments Returns {A} a.
Arguments Raises {A} e.

Inductive level := INFO | WARNING | ERROR.

(** What the process does that an observer can see, oldest first.  [Call]
    marks each invocation [operation()] made by the retry wrapper. *)
Inductive event :=
| Print (s : string)
| Log (lvl : level) (s : string)
| Sleep (secs : Z)
| Call.

(** ** Data model *)

(** One element of the [data] array of the alerts response, reduced to the
    four attributes the bot reads with [attributes.get]; [None] is a key
    that is absent or null. *)
Record alert := {
  header : option string;
  service_effect : option string;
  severity : option Z;
  timeframe : option string;
}.

(** The fields [get_weather] reads from the forecast response.  Readings
    that the feed sends as decimal fractions are carried as the text Python
    prints for them; the two integer fields are integers. *)
Record forecast := {
  maxtemp_f : string;
  mintemp_f : string;
  avgtemp_f : string;
  day_condition : string;
  daily_chance_of_rain : Z;
  sunrise : string;
  sunset : string;
  temp_f : string;
  feelslike_f : string;
  hour_temp_f : string;
  hour_condition : string;
  us_epa_index : Z;
  pm2_5 : string;
  pm10 : string;
  o3 : string;
  co : string;
  no2 : string;
  so2 : string;
}.

Record response (A : Type) := {
  status_code : Z;
  json : A;
}.
Arguments status_code {A} r.
Arguments json {A} r.

Record comment := {
  body : string;
}.

(** A submission of the hot listing with its comment forest flattened in
    the order of [post.comments.list()]. *)
Record post := {
  stickied : bool;
  title : string;
  comments : list comment;
}.

(** An entry of the moderation queue; [is_comment] is
    [isinstance(item, praw.models.Comment)], [spam] records that
    [item.mod.remove(spam=True)] has been applied to it. *)
Record item := {
  is_comment : bool;
  fullname : string;
  id : string;
  spam : bool;
}.

Record log_entry := {
  action : string;
  target_fullname : string;
  mod_name : string;
}.

(** Remote calls that can raise. *)
Inductive endpoint :=
| MbtaGet | WeatherGet | HotListing | ReplaceMore | Reply | Edit
| ModLog | ModQueue | Remove.

Definition endpoint_eqb (a b : endpoint) : bool :=
  match a, b with
  | MbtaGet, MbtaGet | WeatherGet, WeatherGet | HotListing, HotListing
  | ReplaceMore, ReplaceMore | Reply, Reply | Edit, Edit
  | ModLog, ModLog | ModQueue, ModQueue | Remove, Remove => true
  | _, _ => false
  end.

(** A scheduled failure of one remote call: the class and message of the
    exception the call raises, or [None] when it goes through. *)
Definition fault := option (exn_class * string).

(** Everything outside the process.  [hot] is the subreddit's hot listing,
    hottest first; [modlog] is the moderation log, most recent first;
    [weather_api] answers by requested hour; [faults ep] schedules the
    outcomes of the coming calls to [ep] (an exhausted schedule means the
    calls succeed).  The world changes only through the calls the process
    makes. *)
Record world := {
  hot : list post;
  modqueue : list item;
  modlog : list log_entry;
  mbta_api : response (list alert);
  weather_api : Z -> response forecast;
  now_hour : Z;
  now_est : string;
  faults : endpoint -> list fault;
}.

Definition set_hot (h : list post) (w : world) : world :=
  {| hot := h; modqueue := modqueue w; modlog := modlog w;
     mbta_api := mbta_api w; weather_api := weather_api w;
     now_hour := now_hour w; now_est := now_est w; faults := faults w |}.

Definition set_modqueue (q : list item) (w : world) : world :=
  {| hot := hot w; modqueue := q; modlog := modlog w;
     mbta_api := mbta_api w; weather_api := weather_api w;
     now_hour := now_hour w; now_est := now_est w; faults := faults w |}.

Definition set_faults (f : endpoint -> list fault) (w : world) : world :=
  {| hot := hot w; modqueue := modqueue w; modlog := modlog w;
     mbta_api := mbta_api w; weather_api := weather_api w;
     now_hour := now_hour w; now_est := now_est w; faults := f |}.

(** ** The monad of the process: state, exceptions and a trace *)

(** A run from a world: how it ends, the world it leaves, and the events
    it emitted, oldest first. *)
Record result (A : Type) := {
  out : outcome A;
  final : world;
  events : list event;
}.
Arguments out {A} r.
Arguments final {A} r.
Arguments events {A} r.

Definition M (A : Type) : Type := world -> result A.

Definition ret {A} (a : A) : M A :=
  fun w => {| out := Returns a; final := w; events := [] |}.

(** Prefix the events [evs] that came before the run [r]. *)
Definition after {A} (evs : list event) (r : result A) : result A :=
  {| out := out r; final := final r; events := evs ++ events r |}.

Definition bind {A B} (m : M A) (k : A -> M B) : M B :=
  fun w =>
    let r := m w in
    match out r with
    | Returns a => after (events r) (k a (final r))
    | Raises e => {| out := Raises e; final := final r; events := events r |}
    end.

Definition raise {A} (e : exn) : M A :=
  fun w => {| out := Raises e; final := w; events := [] |}.

Declare Scope py_scope.
Delimit Scope py_scope with py.
Notation "x <- m ;; k" := (bind m (fun x => k))
  (at level 100, m at next level, right associativity) : py_scope.
Notation "m ;; k" := (bind m (fun _ => k))
  (at level 100, right associativity) : py_scope.
Local Open Scope py_scope.

(** [try: body  except Exception as e: handler e].  [SystemExit] is not an
    [Exception] and goes through. *)
Definition try_except {A} (body : M A) (handler : exn -> M A) : M A :=
  fun w =>
    let r := body w in
    match out r with
    | Raises (Exception c msg) =>
        after (events r) (handler (Exception c msg) (final r))
    | _ => r
    end.

(** [try: body  except praw.exceptions.PRAWException as e: handler e] *)
Definition try_except_praw {A} (body : M A) (handler : exn -> M A) : M A :=
  fun w =>
    let r := body w in
    match out r with
    | Raises (Exception PRAWException msg) =>
        after (events r) (handler (Exception PRAWException msg) (final r))
    | _ => r
    end.

Definition emit (ev : event) : M unit :=
  fun w => {| out := Returns tt; final := w; events := [ev] |}.

Definition print (s : string) : M unit := emit (Print s).
Definition logger_info (s : string) : M unit := emit (Log INFO s).
Definition logger_warning (s : string) : M unit := emit (Log WARNING s).
Definition logger_error (s : string) : M unit := emit (Log ERROR s).
Definition time_sleep (secs : Z) : M unit := emit (Sleep secs).

(** The built-in [exit()]: raises [SystemExit] with no code. *)
Definition exit {A} : M A := raise (SystemExit None).

Definition get {A} (f : world -> A) : M A :=
  fun w => {| out := Returns (f w); final := w; events := [] |}.

Definition modify (f : world -> world) : M unit :=
  fun w => {| out := Returns tt; final := f w; events := [] |}.

(** The schedule of [ep] with its first entry used up. *)
Definition consume (ep : endpoint) (w : world) : world :=
  set_faults (fun ep' => if endpoint_eqb ep ep' then tail (faults w ep)
                         else faults w ep') w.

(** A remote call to [ep]: takes the next scheduled outcome. *)
Definition api_call (ep : endpoint) : M unit :=
  fun w =>
    match faults w ep with
    | Some (c, msg) :: _ =>
        {| out := Raises (Exception c msg); final := consume ep w; events := [] |}
    | _ => {| out := Returns tt; final := consume ep w; events := [] |}
    end.

(** ** Retry wrapper *)

Section Retry.
Context {A : Type}.
Variable operation : M A.

(** The [for _ in range(n)] loop of [retry_operation] with [n] iterations
    left; the [else] branch of the loop runs once the range is used up. *)
Fixpoint retry_loop (n : nat) : M A :=
  match n with
  | O =>
      print "Max retries reached. Exiting program." ;;
      exit
  | S n' =>
      emit Call ;;
      try_except operation
        (fun e =>
           print ("Error occurred: " +:+ str_of_exn e) ;;
           print "Retrying..." ;;
           time_sleep 60 ;;
           retry_loop n')
  end.

(** [range(max_retries)] is empty for a bound below 1. *)
Definition retry_operation (max_retries : Z) : M A :=
  retry_loop (Z.to_nat max_retries).
End Retry.

Definition max_retries : Z := 100.

(** ** Alert fetcher *)

Definition alert_block (a : alert) : string :=
  "**" +:+ str_of_opt (service_effect a) +:+ "** - "
  +:+ str_of_opt (timeframe a) +:+ nl +:+ nl
  +:+ "Cause: " +:+ str_of_opt (header a) +:+ nl +:+ nl.

(** The body of [for alert in data["data"]], with the text built so far.
    [severity >= min_severity] raises [TypeError] when the severity is
    [None]; [service_effect.lower()] is reached only when the comparison
    holds, and raises [AttributeError] on [None]. *)
Fixpoint alerts_loop (min_severity : Z) (alerts : list alert)
    (mbta_delays_text : string) : M string :=
  match alerts with
  | [] => ret mbta_delays_text
  | a :: rest =>
      match severity a with
      | None =>
          raise (Exception StdException
            "'>=' not supported between instances of 'NoneType' and 'int'")
      | Some sev =>
          if (sev >=? min_severity)%Z then
            match service_effect a with
            | None =>
                raise (Exception StdException
                  "'NoneType' object has no attribute 'lower'")
            | Some se =>
                if negb (str_in "change" (lower se)) then
                  alerts_loop min_severity rest
                    (mbta_delays_text +:+ alert_block a)
                else alerts_loop min_severity rest mbta_delays_text
            end
          else alerts_loop min_severity rest mbta_delays_text
      end
  end.

Definition get_mbta_delays (api_key : string) (min_severity : Z) : M string :=
  api_call MbtaGet ;;
  response <- get mbta_api ;;
  if (status_code response =? 200)%Z then
    match json response with
    | _ :: _ =>
        alerts_loop min_severity (json response)
          ("# Current delays on the MBTA:" +:+ nl +:+ nl)
    | [] => ret "No current delays on the MBTA."
    end
  else ret "Failed to fetch data. Please try again later.".

(** ** Weather fetcher *)

Definition aqi_categories : gmap Z string :=
  {[ 1 := "Good";
     2 := "Moderate";
     3 := "Unhealthy for Sensitive Groups";
     4 := "Unhealthy";
     5 := "Very Unhealthy" ]}.

(** [aqi_categories.get(aqi_us, "Hazardous")] *)
Definition aqi_category (aqi_us : Z) : string :=
  default "Hazardous" (aqi_categories !! aqi_us).

Definition weather_text (f : forecast) : string :=
  "### Daily Weather Forecast for Today in Boston ###" +:+ nl +:+ nl
  +:+ "Current Temperature is **" +:+ temp_f f +:+ "°F** but it feels like **"
  +:+ feelslike_f f +:+ "°F**" +:+ nl +:+ nl
  +:+ "The next hour will be **" +:+ hour_temp_f f +:+ "°F** and **"
  +:+ strip (hour_condition f) +:+ "**" +:+ nl +:+ nl
  +:+ "**Daily Forecast**" +:+ nl +:+ nl
  +:+ "* Max Temperature: " +:+ maxtemp_f f +:+ "°F" +:+ nl +:+ nl
  +:+ "* Min Temperature: " +:+ mintemp_f f +:+ "°F" +:+ nl +:+ nl
  +:+ "* Avg Temperature: " +:+ avgtemp_f f +:+ "°F" +:+ nl +:+ nl
  +:+ "* Condition: " +:+ day_condition f +:+ nl +:+ nl
  +:+ "* Chance of Rain: " +:+ str_of_Z (daily_chance_of_rain f) +:+ "%"
  +:+ nl +:+ nl
  +:+ "* Sunrise Time: " +:+ sunrise f +:+ nl +:+ nl
  +:+ "* Sunset Time: " +:+ sunset f +:+ nl +:+ nl
  +:+ nl +:+ "### Air Quality Index (AQI) ###" +:+ nl +:+ nl
  +:+ "* **AQI Level:** " +:+ aqi_category (us_epa_index f) +:+ " ("
  +:+ str_of_Z (us_epa_index f) +:+ "/5)" +:+ nl +:+ nl
  +:+ "* **PM2.5:** " +:+ pm2_5 f +:+ " µg/m³" +:+ nl +:+ nl
  +:+ "* **PM10:** " +:+ pm10 f +:+ " µg/m³" +:+ nl +:+ nl
  +:+ "* **Ozone (O3):** " +:+ o3 f +:+ " µg/m³" +:+ nl +:+ nl
  +:+ "* **Carbon Monoxide (CO):** " +:+ co f +:+ " µg/m³" +:+ nl +:+ nl
  +:+ "* **Nitrogen Dioxide (NO2):** " +:+ no2 f +:+ " µg/m³" +:+ nl +:+ nl
  +:+ "* **Sulfur Dioxide (SO2):** " +:+ so2 f +:+ " µg/m³" +:+ nl +:+ nl.

Definition get_weather (api_key : string) : M string :=
  current_hour <- get now_hour ;;
  let next_hour_time :=
    if (current_hour >? 4)%Z then current_hour - 3 else current_hour in
  api_call WeatherGet ;;
  api <- get weather_api ;;
  let response := api next_hour_time in
  if (status_code response =? 200)%Z then ret (weather_text (json response))
  else ret "Failed to fetch weather data. Please try again later.".

(** ** Discussion platform *)

(** [subreddit.hot(limit=...)]: one remote call, then a prefix of the
    listing ([limit=None] is the whole listing). *)
Definition subreddit_hot (limit : option nat) : M (list post) :=
  api_call HotListing ;;
  h <- get hot ;;
  ret (match limit with
       | Some n => take n h
       | None => h
       end).

Definition add_comment (text : string) (p : post) : post :=
  {| stickied := stickied p; title := title p;
     comments := comments p ++ [ {| body := text |} ] |}.

Definition set_body (j : nat) (text : string) (p : post) : post :=
  {| stickied := stickied p; title := title p;
     comments := <[ j := {| body := text |} ]> (comments p) |}.

(** [post.reply(text)] on the [i]-th post of the listing: a new top-level
    comment, placed after the existing ones. *)
Definition post_reply (i : nat) (text : string) : M unit :=
  api_call Reply ;;
  modify (fun w => set_hot (alter (add_comment text) i (hot w)) w).

(** [comment.edit(text)] on the [j]-th comment of the [i]-th post. *)
Definition comment_edit (h : nat * nat) (text : string) : M unit :=
  api_call Edit ;;
  modify (fun w => set_hot (alter (set_body (snd h) text) (fst h) (hot w)) w).

Definition is_weekly_sticky (p : post) : bool :=
  stickied p && str_in "Weekly Discussion Thread" (title p).

(** The [for post in hot_posts] loop of [post_comment_in_daily_discussion];
    the result is [suitable_sticky_found]. *)
Fixpoint post_loop (subreddit_name comment_text : string)
    (posts : list post) (i : nat) : M bool :=
  match posts with
  | [] => ret false
  | p :: rest =>
      if is_weekly_sticky p then
        post_reply i comment_text ;;
        print ("Comment posted successfully in " +:+ subreddit_name +:+ ": "
               +:+ title p) ;;
        ret true
      else post_loop subreddit_name comment_text rest (S i)
  end.

Definition post_comment_in_daily_discussion
    (subreddit_name comment_text : string) : M unit :=
  try_except
    (hot_posts <- subreddit_hot (Some 10%nat) ;;
     suitable_sticky_found <- post_loop subreddit_name comment_text hot_posts 0 ;;
     if negb suitable_sticky_found then
       print ("No suitable sticky post found in " +:+ subreddit_name
              +:+ ". Comment not posted.")
     else ret tt)
    (fun e => print ("Error occurred: " +:+ str_of_exn e)).

(** Position of the first comment whose body contains [marker]. *)
Fixpoint find_marked (marker : string) (cs : list comment) (j : nat)
    : option nat :=
  match cs with
  | [] => None
  | c :: rest =>
      if str_in marker (body c) then Some j
      else find_marked marker rest (S j)
  end.

(** The [for post in subreddit.hot(limit=None)] loop of
    [check_comment_in_stickied_thread].  A comment is handed back as its
    position (post, comment) on the platform. *)
Fixpoint check_loop (marker : string) (posts : list post) (i : nat)
    : M (option (nat * nat)) :=
  match posts with
  | [] => ret None
  | p :: rest =>
      if is_weekly_sticky p then
        api_call ReplaceMore ;;
        match find_marked marker (comments p) 0 with
        | Some j => ret (Some (i, j))
        | None => check_loop marker rest (S i)
        end
      else check_loop marker rest (S i)
  end.

Definition check_comment_in_stickied_thread
    (subreddit_name marker : string) : M (option (nat * nat)) :=
  posts <- subreddit_hot None ;;
  check_loop marker posts 0.

(** ** Moderation sweeper *)

(** [subreddit.mod.log(limit=..., action=...)] *)
Definition mod_log (limit : nat) (act : string) : M (list log_entry) :=
  api_call ModLog ;;
  l <- get modlog ;;
  ret (take limit (List.filter (fun e => String.eqb (action e) act) l)).

Definition is_crowd_control_entry (it : item) (e : log_entry) : bool :=
  String.eqb (target_fullname e) (fullname it) && String.eqb (mod_name e) "reddit".

Definition is_probably_crowd_control (it : item) (bot_username : string)
    : M bool :=
  try_except
    (entries <- mod_log 10 "removecomment" ;;
     ret (existsb (is_crowd_control_entry it) entries))
    (fun e =>
       logger_warning ("Error checking modlog for item " +:+ id it +:+ ": "
                       +:+ str_of_exn e) ;;
       ret false).

Definition mark_spam (it : item) : item :=
  {| is_comment := is_comment it; fullname := fullname it; id := id it;
     spam := true |}.

(** [item.mod.remove(spam=True)] on the [i]-th entry of the queue. *)
Definition mod_remove_spam (i : nat) : M unit :=
  api_call Remove ;;
  modify (fun w => set_modqueue (alter mark_spam i (modqueue w)) w).

(** The [for item in subreddit.mod.modqueue(limit=25)] loop; the result is
    [flagged_count]. *)
Fixpoint sweep_loop (bot_username : string) (items : list item) (i : nat)
    (flagged_count : Z) : M Z :=
  match items with
  | [] => ret flagged_count
  | it :: rest =>
      if is_comment it then
        cc <- is_probably_crowd_control it bot_username ;;
        if (cc : bool) then
          logger_info ("Marking comment " +:+ id it
                       +:+ " as spam due to Reddit Crowd Control.") ;;
          mod_remove_spam i ;;
          sweep_loop bot_username rest (S i) (flagged_count + 1)
        else sweep_loop bot_username rest (S i) flagged_count
      else sweep_loop bot_username rest (S i) flagged_count
  end.

Definition monitor_modqueue_for_crowd_control
    (subreddit_name bot_username : string) : M unit :=
  api_call ModQueue ;;
  q <- get modqueue ;;
  flagged_count <- sweep_loop bot_username (take 25 q) 0 0 ;;
  logger_info ("Total comments flagged as spam this cycle: "
               +:+ str_of_Z flagged_count).

(** ** The cycle *)

(** Values read from the environment at start-up. *)
Record config := {
  subreddit_name : string;
  username : string;
  api_key : string;
  weather_api_key : string;
}.

Definition min_severity : Z := 1.
Definition marker : string := "### Boston Status Update ###".

Definition comment_text (current_time_est_str weather mbta_delays : string)
    : string :=
  marker +:+ nl +:+ nl +:+ "Last Update: " +:+ current_time_est_str
  +:+ nl +:+ nl +:+ "________________" +:+ nl +:+ nl +:+ weather
  +:+ nl +:+ nl +:+ "________________" +:+ nl +:+ nl +:+ mbta_delays
  +:+ nl +:+ nl +:+ "________________" +:+ nl +:+ nl
  +:+ " This comment was made by a bot. If the bot is broken please [message the mods](https://www.reddit.com/message/compose/?to=/r/boston) . ".

(** Lines 250-264: find the status comment, then post or edit. *)
Definition upsert (cfg : config) (text : string) : M unit :=
  logger_info "Checking for existing comment..." ;;
  existing_comment <- check_comment_in_stickied_thread (subreddit_name cfg) marker ;;
  match existing_comment with
  | None =>
      logger_info "No existing comment found. Posting new comment..." ;;
      post_comment_in_daily_discussion (subreddit_name cfg) text ;;
      logger_info "Comment posted successfully."
  | Some h =>
      try_except_praw
        (logger_info "Editing existing comment..." ;;
         comment_edit h text ;;
         logger_info "Comment edited successfully.")
        (fun e => logger_error ("Error posting/editing comment: "
                                +:+ str_of_exn e))
  end.

(** The statements under [try] in [main_logic], lines 237-268. *)
Definition main_logic_body (cfg : config) : M unit :=
  logger_info "Fetching MBTA delays..." ;;
  mbta_delays_text <- get_mbta_delays (api_key cfg) min_severity ;;
  logger_info "Fetching weather forecast..." ;;
  weather <- get_weather (weather_api_key cfg) ;;
  current_time_est_str <- get now_est ;;
  let text := comment_text current_time_est_str weather mbta_delays_text in
  upsert cfg text ;;
  logger_info "Checking modqueue for Crowd Control removals..." ;;
  monitor_modqueue_for_crowd_control (subreddit_name cfg) (username cfg).

Definition main_logic (cfg : config) : M unit :=
  try_except (main_logic_body cfg)
    (fun e => logger_error ("Unexpected error in main_logic: "
                            +:+ str_of_exn e)).

(** One turn of [while True] around an operation: the retry wrapper under
    the outer [except Exception], then the five-minute sleep. *)
Definition loop_body (operation : M unit) : M unit :=
  try_except (retry_operation operation max_retries)
    (fun e => logger_error ("Fatal error in bot operation: " +:+ str_of_exn e)) ;;
  time_sleep 300.

Definition cycle (cfg : config) : M unit := loop_body (main_logic cfg).

(** The first [n] turns of the endless loop. *)
Fixpoint run (cfg : config) (n : nat) : M unit :=
  match n with
  | O => ret tt
  | S n' => cycle cfg ;; run cfg n'
  end.

(** * Vocabulary of the statements *)

(** [sub] occurs in [s] up to the case of ASCII letters: some stretch of
    [s] lowers to [sub]. *)
Definition occurs_ci (sub s : string) : Prop :=
  exists a mid b, s = a +:+ mid +:+ b /\ lower mid = sub.

(** ** Attempts of an operation under the retry wrapper

    The wrapper itself only prints and sleeps, so the world in which the
    operation runs for the [j+1]-th time is the one its first [j] runs
    left. *)

Section Attempts.
Context {A : Type}.
Variable operation : M A.

Fixpoint state_before (w : world) (j : nat) : world :=
  match j with
  | O => w
  | S j' => final (operation (state_before w j'))
  end.

(** The [j+1]-th invocation, counting from [j = 0]. *)
Definition attempt (w : world) (j : nat) : result A :=
  operation (state_before w j).
End Attempts.

(** The run ended in an exception that [except Exception] catches. *)
Definition failed {A} (r : result A) : bool :=
  match out r with
  | Raises (Exception _ _) => true
  | _ => false
  end.

Definition error_text {A} (r : result A) : string :=
  match out r with
  | Raises e => str_of_exn e
  | Returns _ => ""
  end.

(** What is observed around a failed run [r] of the operation: the call,
    the operation's own events, the two console lines and the delay. *)
Definition failed_attempt_events {A} (r : result A) : list event :=
  Call :: events r
  ++ [Print ("Error occurred: " +:+ error_text r); Print "Retrying...";
      Sleep 60].

Definition is_delay (ev : event) : bool :=
  match ev with
  | Sleep 60 => true
  | _ => false
  end.

(** Number of 60-second delays in a trace. *)
Definition delays (evs : list event) : nat :=
  length (List.filter is_delay evs).


(** ** Sample worlds and operations *)

Definition sample_forecast : forecast :=
  {| maxtemp_f := "71.2"; mintemp_f := "55.0"; avgtemp_f := "63.4";
     day_condition := "Sunny"; daily_chance_of_rain := 10;
     sunrise := "06:12 AM"; sunset := "07:48 PM";
     temp_f := "64.9"; feelslike_f := "64.9";
     hour_temp_f := "66.0"; hour_condition := "Clear ";
     us_epa_index := 2;
     pm2_5 := "8.1"; pm10 := "12.3"; o3 := "60.2"; co := "230.3";
     no2 := "9.9"; so2 := "1.2" |}.

(** Both feeds up, nothing on the platform, no failure scheduled. *)
Definition calm : world :=
  {| hot := []; modqueue := []; modlog := [];
     mbta_api := {| status_code := 200; json := [] |};
     weather_api := fun _ => {| status_code := 200; json := sample_forecast |};
     now_hour := 9; now_est := "2024-05-06 09:00:00 EST";
     faults := fun _ => [] |}.

(** The transit feed refuses the next 200 requests. *)
Definition mbta_down : world :=
  set_faults (fun ep => if endpoint_eqb ep MbtaGet
                        then repeat (Some (StdException, "Connection refused")) 200
                        else []) calm.

(** The next [Reply] call times out, the one after it goes through. *)
Definition reply_flaky : world :=
  set_faults (fun ep => if endpoint_eqb ep Reply
                        then [Some (StdException, "timeout"); None]
                        else []) calm.

Definition boom : M unit := raise (Exception StdException "boom").

Definition ping : M Z := api_call Reply ;; ret 7%Z.

Definition sample_config : config :=
  {| subreddit_name := "boston"; username := "bostonbot";
     api_key := "k1"; weather_api_key := "k2" |}.

(** ** Remote calls and alerts *)

(** The next call to [ep] is scheduled to raise. *)
Definition fails_next (ep : endpoint) (w : world) : bool :=
  match faults w ep with
  | Some _ :: _ => true
  | _ => false
  end.

(** An alert carrying the two attributes the filter reads. *)
Definition well_formed (a : alert) : Prop :=
  is_Some (severity a) /\ is_Some (service_effect a).

(** The filter of line 65. *)
Definition qualifies (min_severity : Z) (a : alert) : bool :=
  match severity a, service_effect a with
  | Some sev, Some se =>
      (min_severity <=? sev)%Z && negb (str_in "change" (lower se))
  | _, _ => false
  end.

(** The formatted blocks of a list of alerts, one after the other. *)
Definition blocks (alerts : list alert) : string :=
  fold_right (fun a s => alert_block a +:+ s) EmptyString alerts.

(** A successful response with one alert, a planned service change. *)
Definition service_change_only : world :=
  {| hot := []; modqueue := []; modlog := [];
     mbta_api :=
       {| status_code := 200;
          json := [ {| header := Some "Red Line: shuttle buses replace service";
                       service_effect := Some "Service Change";
                       severity := Some 5%Z;
                       timeframe := Some "this weekend" |} ] |};
     weather_api := weather_api calm;
     now_hour := 9; now_est := "2024-05-06 09:00:00 EST";
     faults := fun _ => [] |}.

(** A delay, a service change and a minor notice, in this order. *)
Definition three_alerts : world :=
  {| hot := []; modqueue := []; modlog := [];
     mbta_api :=
       {| status_code := 200;
          json := [ {| header := Some "Orange Line: signal problem";
                       service_effect := Some "Delay";
                       severity := Some 4%Z;
                       timeframe := Some "ongoing" |};
                    {| header := Some "Red Line: shuttle buses replace service";
                       service_effect := Some "Service CHANGE";
                       severity := Some 5%Z;
                       timeframe := Some "this weekend" |};
                    {| header := Some "Green Line: elevator out of service";
                       service_effect := Some "Access issue";
                       severity := Some 0%Z;
                       timeframe := None |} ] |};
     weather_api := weather_api calm;
     now_hour := 9; now_est := "2024-05-06 09:00:00 EST";
     faults := fun _ => [] |}.

(** ** The status comment on the platform *)

(** No remote call is scheduled to fail. *)
Definition reliable (w : world) : Prop :=
  forall ep, Forall (fun f : fault => f = None) (faults w ep).

Definition is_marked (c : comment) : bool := str_in marker (body c).

(** The comments of the pinned weekly threads that carry the marker. *)
Definition status_comments (h : list post) : list comment :=
  flat_map (fun p => if is_weekly_sticky p
                     then List.filter is_marked (comments p) else []) h.

(** Every comment of the listing [h'] was already in the listing [h] or
    has a body that starts with the marker. *)
Definition written_by_bot (h h' : list post) : Prop :=
  forall p' c', In p' h' -> In c' (comments p') ->
    (exists p, In p h /\ In c' (comments p))
    \/ startswith marker (body c') = true.

(** A subreddit whose pinned weekly thread has two comments, none by the
    bot. *)
Definition weekly_thread : post :=
  {| stickied := true;
     title := "Weekly Discussion Thread - May 6";
     comments := [ {| body := "Any good ramen near Porter?" |};
                   {| body := "Red Line again..." |} ] |}.

Definition rules_post : post :=
  {| stickied := true; title := "Subreddit rules"; comments := [] |}.

Definition sunset_post : post :=
  {| stickied := false; title := "Sunset over the Charles";
     comments := [ {| body := "Nice shot" |} ] |}.

Definition with_thread : world :=
  set_hot [rules_post; weekly_thread; sunset_post] calm.

(** The platform after a first upsert in [with_thread]. *)
Definition after_first_upsert (cfg : config) (text : string) : world :=
  final (upsert cfg text with_thread).

(** [m] never takes the hot listing outside the relation [R]. *)
Definition keeps (R : list post -> list post -> Prop) {A} (m : M A) : Prop :=
  forall w, R (hot w) (hot (final (m w))).

(** A listing without a pinned weekly thread. *)
Definition without_thread : world :=
  set_hot [ {| stickied := true; title := "Subreddit rules"; comments := [] |};
            {| stickied := false; title := "Weekly Discussion Thread ideas";
               comments := [ {| body := "Bring it back" |} ] |} ] calm.

(** [m] never ends in [SystemExit]: whatever it raises, [except
    Exception] catches. *)
Definition raises_only_exceptions {A} (m : M A) : Prop :=
  forall w code, out (m w) <> Raises (SystemExit code).

(** ** The moderation sweep *)

(** The entries [mod.log(limit=10, action="removecomment")] returns. *)
Definition recent_removals (log : list log_entry) : list log_entry :=
  take 10 (List.filter (fun e => String.eqb (action e) "removecomment") log).

(** Some recent removal targets [it] and was made by the system account. *)
Definition crowd_controlled (log : list log_entry) (it : item) : bool :=
  existsb (is_crowd_control_entry it) (recent_removals log).

(** The [n+1]-th coming call of a schedule is set to raise. *)
Definition fails_at (lf : list fault) (n : nat) : bool :=
  match lf !! n with
  | Some (Some _) => true
  | _ => false
  end.

(** Number of comments among the first [k] entries of the queue: the log
    is looked up once for each of them. *)
Definition comments_before (q : list item) (k : nat) : nat :=
  length (List.filter is_comment (take k q)).

(** The entry [it] at position [k] of the queue gets marked by a sweep
    from [w]: it is among the first 25, it is a comment, the log look-up
    made for it goes through, and the log shows the removal. *)
Definition swept (w : world) (k : nat) (it : item) : bool :=
  (k <? 25)%nat && is_comment it
  && negb (fails_at (faults w ModLog) (comments_before (modqueue w) k))
  && crowd_controlled (modlog w) it.

(** The marks a sweep gives to a run of entries, given the schedule of the
    log look-ups. *)
Fixpoint sweep_flags (lf : list fault) (log : list log_entry)
    (items : list item) : list bool :=
  match items with
  | [] => []
  | it :: rest =>
      if is_comment it then
        (negb (fails_at lf 0) && crowd_controlled log it)
        :: sweep_flags (tail lf) log rest
      else false :: sweep_flags lf log rest
  end.

(** A queue of four entries; the third log look-up is set to fail. *)
Definition busy_queue : world :=
  {| hot := [];
     modqueue :=
       [ {| is_comment := true; fullname := "t1_aaa"; id := "aaa"; spam := false |};
         {| is_comment := false; fullname := "t3_bbb"; id := "bbb"; spam := false |};
         {| is_comment := true; fullname := "t1_ccc"; id := "ccc"; spam := false |};
         {| is_comment := true; fullname := "t1_ddd"; id := "ddd"; spam := false |} ];
     modlog :=
       [ {| action := "removecomment"; target_fullname := "t1_ddd";
            mod_name := "reddit" |};
         {| action := "removecomment"; target_fullname := "t1_ccc";
            mod_name := "a_human_mod" |};
         {| action := "approvelink"; target_fullname := "t3_bbb";
            mod_name := "a_human_mod" |};
         {| action := "removecomment"; target_fullname := "t1_aaa";
            mod_name := "reddit" |} ];
     mbta_api := mbta_api calm; weather_api := weather_api calm;
     now_hour := 9; now_est := "2024-05-06 09:00:00 EST";
     faults := fun ep => if endpoint_eqb ep ModLog
                         then [None; None; Some (StdException, "503")]
                         else [] |}.

(** ** Further sample worlds and operations *)

(** An operation that ends the process itself. *)
Definition quits : M unit := raise (SystemExit (Some 3%Z)).

(** The transit feed answers with a server error. *)
Definition mbta_500 : world :=
  {| hot := hot calm; modqueue := []; modlog := [];
     mbta_api := {| status_code := 500; json := [] |};
     weather_api := weather_api calm;
     now_hour := 9; now_est := "2024-05-06 09:00:00 EST";
     faults := fun _ => [] |}.

(** A response whose second alert has no severity, and one whose second
    alert is below the threshold and has no service effect. *)
Definition delay_alert : alert :=
  {| header := Some "Orange Line: signal problem";
     service_effect := Some "Delay";
     severity := Some 4%Z;
     timeframe := Some "ongoing" |}.

Definition no_severity_alert : alert :=
  {| header := Some "Blue Line: notice"; service_effect := Some "Delay";
     severity := None; timeframe := None |}.

Definition minor_bare_alert : alert :=
  {| header := Some "Green Line: notice"; service_effect := None;
     severity := Some 0%Z; timeframe := None |}.

Definition with_alerts (alerts : list alert) : world :=
  {| hot := []; modqueue := []; modlog := [];
     mbta_api := {| status_code := 200; json := alerts |};
     weather_api := weather_api calm;
     now_hour := 9; now_est := "2024-05-06 09:00:00 EST";
     faults := fun _ => [] |}.

(** An alert whose service effect is looked at only if its severity
    reaches the threshold. *)
Definition filterable (min_severity : Z) (a : alert) : Prop :=
  exists sev, severity a = Some sev
              /\ ((sev < min_severity)%Z \/ is_Some (service_effect a)).

(** The next [Reply] call fails. *)
Definition reply_refused : world :=
  set_faults (fun ep => if endpoint_eqb ep Reply
                        then [Some (StdException, "403")] else []) with_thread.

(** The pinned weekly thread already holds a status comment, in second
    place. *)
Definition status_thread : post :=
  {| stickied := true;
     title := "Weekly Discussion Thread - May 6";
     comments := [ {| body := "Any good ramen near Porter?" |};
                   {| body := comment_text "08:55" "sunny" "no delays" |};
                   {| body := "Red Line again..." |} ] |}.

Definition with_status : world :=
  set_hot [rules_post; status_thread; sunset_post] calm.

(** Number of comments on the listing. *)
Definition total_comments (h : list post) : nat :=
  length (flat_map comments h).

(** The status comment exists and the platform refuses the next edit with
    an exception of class [cls]. *)
Definition edit_refused (cls : exn_class) : world :=
  set_faults (fun ep => if endpoint_eqb ep Edit
                        then [Some (cls, "RATELIMIT")] else []) with_status.

(** The queue [q'] is [q] with some entries marked as spam. *)
Definition marks_only (q q' : list item) : Prop :=
  Forall2 (fun it it' => it' = it \/ it' = mark_spam it) q q'.

(** The entry at position [k] of the queue, if any, gets marked by a sweep
    from [w]. *)
Definition swept_at (w : world) (k : nat) : bool :=
  match modqueue w !! k with
  | Some it => swept w k it
  | None => false
  end.

(** [busy_queue] with the first removal refused. *)
Definition remove_refused : world :=
  set_faults (fun ep => if endpoint_eqb ep Remove
                        then [Some (StdException, "403")] else []) busy_queue.



(** The listing [h'] has the posts of [h], in place, none with fewer
    comments. *)
Definition grows (h h' : list post) : Prop :=
  Forall2 (fun p p' => stickied p' = stickied p /\ title p' = title p
                       /\ (length (comments p) <= length (comments p'))%nat)
    h h'.


(** ** Reading a text without regard to case, and the Markdown of a block *)

Definition is_capital (c : ascii) : Prop :=
  (65 <= nat_of_ascii c <= 90)%nat.

(** Two characters are the same letter: equal, or one is a capital A-Z
    and the other the small letter 32 code points above it. *)
Definition same_letter (a b : ascii) : Prop :=
  a = b
  \/ (is_capital a /\ nat_of_ascii b = (nat_of_ascii a + 32)%nat)
  \/ (is_capital b /\ nat_of_ascii a = (nat_of_ascii b + 32)%nat).

(** Two texts of the same length, letter for letter the same up to case. *)
Inductive same_text : string -> string -> Prop :=
| same_text_nil : same_text EmptyString EmptyString
| same_text_cons a b s t :
    same_letter a b -> same_text s t -> same_text (String a s) (String b t).

(** Some stretch of [s] reads [sub] when case is ignored. *)
Definition occurs_ignoring_case (sub s : string) : Prop :=
  exists pre mid post, s = pre +:+ mid +:+ post /\ same_text mid sub.

(** What an f-string shows for a field read with [dict.get]. *)
Definition shown (o : option string) : string := default "None" o.

(** The Markdown of one alert: the effect in bold, a dash, the time
    frame, a blank line, the cause, a blank line. *)
Definition markdown_block (effect time_frame cause : string) : string :=
  "**" +:+ effect +:+ "** - " +:+ time_frame
  +:+ String (ascii_of_nat 10) (String (ascii_of_nat 10) "Cause: ")
  +:+ cause +:+ String (ascii_of_nat 10) (String (ascii_of_nat 10) EmptyString).

Definition markdown_of (a : alert) : string :=
  markdown_block (shown (service_effect a)) (shown (timeframe a))
    (shown (header a)).

(** * Properties *)

(** ** Text search *)

Lemma startswith_iff (p s : string) :
  startswith p s = true <-> exists r, s = p +:+ r.
Proof.
  revert s. induction p as [|a p IH]; intros s; simpl.
  - split; [intros _; by exists s | done].
  - destruct s as [|b s].
    + split; [done | intros [r Hr]; discriminate Hr].
    + destruct (Ascii.eqb_spec a b) as [->|Hab].
      * rewrite IH. split; intros [r Hr]; exists r.
        -- by rewrite Hr.
        -- by injection Hr.
      * split; [done | intros [r Hr]; injection Hr; congruence].
Qed.

Lemma str_in_iff (sub s : string) :
  str_in sub s = true <-> exists a b, s = a +:+ sub +:+ b.
Proof.
  induction s as [|c s IH]; simpl.
  - rewrite startswith_iff. split.
    + intros [r Hr]. exists EmptyString, r. done.
    + intros [a [b Hab]]. destruct a; [by exists b | discriminate Hab].
  - rewrite orb_true_iff, IH, startswith_iff. split.
    + intros [[r Hr] | [a [b Hab]]].
      * exists EmptyString, r. done.
      * exists (String c a), b. simpl. by rewrite Hab.
    + intros [a [b Hab]]. destruct a as [|c' a]; simpl in Hab.
      * left. by exists b.
      * right. exists a, b. by injection Hab.
Qed.

Lemma str_in_prefix (p r : string) : str_in p (p +:+ r) = true.
Proof. apply str_in_iff. by exists EmptyString, r. Qed.

Lemma append_nil_l (s : string) : EmptyString +:+ s = s.
Proof. reflexivity. Qed.

Lemma append_cons (c : ascii) (a b : string) :
  String c a +:+ b = String c (a +:+ b).
Proof. reflexivity. Qed.

Lemma lower_app (a b : string) : lower (a +:+ b) = lower a +:+ lower b.
Proof.
  induction a as [|c a IH]; [done|].
  rewrite append_cons. simpl. by rewrite IH.
Qed.

(** A lowered text splits where the original does. *)
Lemma lower_split (s x y : string) :
  lower s = x +:+ y -> exists a b, s = a +:+ b /\ lower a = x /\ lower b = y.
Proof.
  revert x. induction s as [|c s IH]; intros x H; simpl in H.
  - destruct x; [|discriminate H]. rewrite append_nil_l in H. subst y.
    by exists EmptyString, EmptyString.
  - destruct x as [|d x].
    + rewrite append_nil_l in H. exists EmptyString, (String c s). by subst y.
    + rewrite append_cons in H. injection H as Hd Hs.
      destruct (IH _ Hs) as (a & b & -> & Ha & Hb).
      exists (String c a), b. rewrite append_cons. simpl. by rewrite Hd, Ha.
Qed.

Lemma str_in_lower_iff (sub s : string) :
  str_in sub (lower s) = true <-> occurs_ci sub s.
Proof.
  rewrite str_in_iff. split.
  - intros (x & y & H).
    destruct (lower_split _ _ _ H) as (a & r & -> & _ & Hr).
    destruct (lower_split _ _ _ Hr) as (mid & b & -> & Hmid & _).
    by exists a, mid, b.
  - intros (a & mid & b & -> & Hmid).
    exists (lower a), (lower b). by rewrite !lower_app, Hmid.
Qed.

(** ** Air-quality label *)

(** C5: the label for an AQI reading is "Good" for 1, "Moderate" for 2,
    "Unhealthy for Sensitive Groups" for 3, "Unhealthy" for 4, "Very
    Unhealthy" for 5, and "Hazardous" for every other integer. *)
Theorem aqi_category_table (aqi_us : Z) :
  aqi_category aqi_us =
    if (aqi_us =? 1)%Z then "Good"
    else if (aqi_us =? 2)%Z then "Moderate"
    else if (aqi_us =? 3)%Z then "Unhealthy for Sensitive Groups"
    else if (aqi_us =? 4)%Z then "Unhealthy"
    else if (aqi_us =? 5)%Z then "Very Unhealthy"
    else "Hazardous".
Proof.
  unfold aqi_category, aqi_categories.
  destruct (Z.eqb_spec aqi_us 1) as [->|?]; [reflexivity|].
  destruct (Z.eqb_spec aqi_us 2) as [->|?]; [reflexivity|].
  destruct (Z.eqb_spec aqi_us 3) as [->|?]; [reflexivity|].
  destruct (Z.eqb_spec aqi_us 4) as [->|?]; [reflexivity|].
  destruct (Z.eqb_spec aqi_us 5) as [->|?]; [reflexivity|].
  rewrite !lookup_insert_ne by done.
  by rewrite lookup_singleton_ne.
Qed.

Example aqi_category_0 : aqi_category 0 = "Hazardous".
Proof. reflexivity. Qed.

Example aqi_category_6 : aqi_category 6 = "Hazardous".
Proof. reflexivity. Qed.

(** ** Running the monad *)

Lemma after_nil {A} (r : result A) : after [] r = r.
Proof. by destruct r. Qed.

Lemma after_after {A} (e1 e2 : list event) (r : result A) :
  after e1 (after e2 r) = after (e1 ++ e2) r.
Proof. unfold after. simpl. by rewrite app_assoc. Qed.

Lemma bind_returns {A B} (m : M A) (k : A -> M B) (w : world) (a : A) :
  out (m w) = Returns a ->
  bind m k w = after (events (m w)) (k a (final (m w))).
Proof. intros H. unfold bind. by rewrite H. Qed.

Lemma bind_raises {A B} (m : M A) (k : A -> M B) (w : world) (e : exn) :
  out (m w) = Raises e ->
  bind m k w = {| out := Raises e; final := final (m w); events := events (m w) |}.
Proof. intros H. unfold bind. by rewrite H. Qed.

Lemma try_except_caught {A} (body : M A) (h : exn -> M A) (w : world) c msg :
  out (body w) = Raises (Exception c msg) ->
  try_except body h w
  = after (events (body w)) (h (Exception c msg) (final (body w))).
Proof. intros H. unfold try_except. by rewrite H. Qed.

Lemma try_except_returns {A} (body : M A) (h : exn -> M A) (w : world) a :
  out (body w) = Returns a -> try_except body h w = body w.
Proof. intros H. unfold try_except. by rewrite H. Qed.

Lemma try_except_exit {A} (body : M A) (h : exn -> M A) (w : world) code :
  out (body w) = Raises (SystemExit code) -> try_except body h w = body w.
Proof. intros H. unfold try_except. by rewrite H. Qed.

(** ** Retry wrapper *)

Section RetryFacts.
Context {A : Type}.
Variable operation : M A.

Lemma state_before_shift (w : world) (j : nat) :
  state_before operation (final (operation w)) j
  = state_before operation w (S j).
Proof. induction j as [|j IH]; [done | simpl in *; by rewrite IH]. Qed.

Lemma attempt_shift (w : world) (j : nat) :
  attempt operation (final (operation w)) j = attempt operation w (S j).
Proof. unfold attempt. by rewrite state_before_shift. Qed.

Lemma failed_inv (r : result A) :
  failed r = true -> exists c msg, out r = Raises (Exception c msg).
Proof.
  unfold failed. destruct (out r) as [a|[c msg|code]]; try done. eauto.
Qed.

(** One failed attempt: the wrapper reports, sleeps and goes on with one
    attempt fewer, in the world the operation left. *)
Lemma retry_loop_failed (n : nat) (w : world) :
  failed (operation w) = true ->
  retry_loop operation (S n) w
  = after (failed_attempt_events (operation w))
      (retry_loop operation n (final (operation w))).
Proof.
  intros H. destruct (failed_inv _ H) as (c & msg & Hout).
  simpl. unfold bind at 1. simpl.
  rewrite (try_except_caught _ _ _ _ _ Hout).
  unfold bind, print, time_sleep, emit. simpl.
  unfold failed_attempt_events, error_text. rewrite Hout. simpl.
  rewrite !after_after. f_equal. by rewrite <- !app_assoc.
Qed.

(** A successful attempt ends the loop with the operation's result. *)
Lemma retry_loop_returns (n : nat) (w : world) (a : A) :
  out (operation w) = Returns a ->
  retry_loop operation (S n) w = after [Call] (operation w).
Proof.
  intros H. simpl. unfold bind at 1. simpl.
  by rewrite (try_except_returns _ _ _ _ H).
Qed.

Lemma flat_map_attempts_shift (w : world) (n : nat) :
  flat_map (fun j => failed_attempt_events (attempt operation (final (operation w)) j))
    (seq 0 n)
  = flat_map (fun j => failed_attempt_events (attempt operation w j)) (seq 1 n).
Proof.
  rewrite <- seq_shift, flat_map_concat_map, flat_map_concat_map.
  rewrite map_map. f_equal. apply map_ext. intros j.
  by rewrite attempt_shift.
Qed.

Lemma retry_loop_all_failed (n : nat) (w : world) :
  (forall j, (j < n)%nat -> failed (attempt operation w j) = true) ->
  retry_loop operation n w
  = {| out := Raises (SystemExit None);
       final := state_before operation w n;
       events :=
         flat_map (fun j => failed_attempt_events (attempt operation w j))
           (seq 0 n)
         ++ [Print "Max retries reached. Exiting program."] |}.
Proof.
  revert w. induction n as [|n IH]; intros w H; [done|].
  rewrite retry_loop_failed by (apply (H 0%nat); lia).
  rewrite IH.
  - unfold after. simpl. rewrite state_before_shift.
    rewrite flat_map_attempts_shift. f_equal.
    by rewrite app_assoc.
  - intros j Hj. rewrite attempt_shift. apply H. lia.
Qed.

Lemma retry_loop_first_success (n k : nat) (w : world) (a : A) :
  (k < n)%nat ->
  (forall j, (j < k)%nat -> failed (attempt operation w j) = true) ->
  out (attempt operation w k) = Returns a ->
  retry_loop operation n w
  = {| out := Returns a;
       final := state_before operation w (S k);
       events :=
         flat_map (fun j => failed_attempt_events (attempt operation w j))
           (seq 0 k)
         ++ Call :: events (attempt operation w k) |}.
Proof.
  revert n w. induction k as [|k IH]; intros n w Hk Hfail Hok.
  - destruct n as [|n]; [lia|].
    unfold attempt in Hok. simpl in Hok.
    rewrite (retry_loop_returns _ _ _ Hok). unfold after, attempt. simpl.
    by rewrite Hok.
  - destruct n as [|n]; [lia|].
    rewrite retry_loop_failed by (apply (Hfail 0%nat); lia).
    rewrite (IH n (final (operation w))).
    + unfold after. simpl. rewrite !state_before_shift.
      rewrite flat_map_attempts_shift, attempt_shift. f_equal.
      by rewrite app_assoc.
    + lia.
    + intros j Hj. rewrite attempt_shift. apply Hfail. lia.
    + by rewrite attempt_shift.
Qed.
End RetryFacts.

(** C4: an operation that fails on each of its [max_retries] attempts makes
    the wrapper end the process after exactly that many invocations, each
    failed attempt being followed by the 60-second delay (so consecutive
    attempts are a delay apart); an operation that first succeeds on attempt
    [k <= max_retries] has its result returned, after exactly [k]
    invocations and nothing further. *)
Theorem retry_operation_attempts {A} (operation : M A) (max_retries : Z)
    (w : world) :
  ((forall j, (j < Z.to_nat max_retries)%nat ->
      failed (attempt operation w j) = true) ->
   retry_operation operation max_retries w
   = {| out := Raises (SystemExit None);
        final := state_before operation w (Z.to_nat max_retries);
        events :=
          flat_map (fun j => failed_attempt_events (attempt operation w j))
            (seq 0 (Z.to_nat max_retries))
          ++ [Print "Max retries reached. Exiting program."] |})
  /\
  (forall (k : nat) (a : A),
     (1 <= k <= Z.to_nat max_retries)%nat ->
     (forall j, (j < k - 1)%nat -> failed (attempt operation w j) = true) ->
     out (attempt operation w (k - 1)) = Returns a ->
     retry_operation operation max_retries w
     = {| out := Returns a;
          final := state_before operation w k;
          events :=
            flat_map (fun j => failed_attempt_events (attempt operation w j))
              (seq 0 (k - 1))
            ++ Call :: events (attempt operation w (k - 1)) |}).
Proof.
  split.
  - intros H. unfold retry_operation. by apply retry_loop_all_failed.
  - intros k a Hk Hfail Hok. unfold retry_operation.
    rewrite (retry_loop_first_success operation _ (k - 1) w a); [|lia|done..].
    by replace (S (k - 1)) with k by lia.
Qed.

Lemma retry_operation_attempts_witness :
  ((forall j, (j < Z.to_nat 3)%nat -> failed (attempt boom calm j) = true) /\
   retry_operation boom 3 calm
   = {| out := Raises (SystemExit None);
        final := state_before boom calm (Z.to_nat 3);
        events :=
          flat_map (fun j => failed_attempt_events (attempt boom calm j))
            (seq 0 (Z.to_nat 3))
          ++ [Print "Max retries reached. Exiting program."] |})
  /\
  ((1 <= 2 <= Z.to_nat 3)%nat /\
   (forall j, (j < 2 - 1)%nat -> failed (attempt ping reply_flaky j) = true) /\
   out (attempt ping reply_flaky (2 - 1)) = Returns 7%Z /\
   retry_operation ping 3 reply_flaky
   = {| out := Returns 7%Z;
        final := state_before ping reply_flaky 2;
        events :=
          flat_map (fun j => failed_attempt_events (attempt ping reply_flaky j))
            (seq 0 (2 - 1))
          ++ Call :: events (attempt ping reply_flaky (2 - 1)) |}).
Proof.
  assert (H1 : forall j, (j < Z.to_nat 3)%nat ->
                 failed (attempt boom calm j) = true).
  { intros j _. reflexivity. }
  assert (H2 : forall j, (j < 2 - 1)%nat ->
                 failed (attempt ping reply_flaky j) = true).
  { intros [|j] Hj; [reflexivity | simpl in Hj; lia]. }
  assert (H3 : (1 <= 2 <= Z.to_nat 3)%nat) by (simpl; lia).
  split; [split; [exact H1|] | split; [exact H3 | split; [exact H2 | split; [reflexivity|]]]].
  - exact (proj1 (retry_operation_attempts boom 3 calm) H1).
  - exact (proj2 (retry_operation_attempts ping 3 reply_flaky) 2%nat 7%Z H3 H2 eq_refl).
Defined.

Example retry_boom_trace :
  events (retry_operation boom 2 calm)
  = [Call; Print "Error occurred: boom"; Print "Retrying..."; Sleep 60;
     Call; Print "Error occurred: boom"; Print "Retrying..."; Sleep 60;
     Print "Max retries reached. Exiting program."].
Proof. reflexivity. Qed.

Example retry_ping_trace :
  events (retry_operation ping 3 reply_flaky)
  = [Call; Print "Error occurred: timeout"; Print "Retrying..."; Sleep 60;
     Call].
Proof. reflexivity. Qed.

Lemma delays_app (a b : list event) : delays (a ++ b) = (delays a + delays b)%nat.
Proof. unfold delays. by rewrite List.filter_app, length_app. Qed.

Lemma delays_failed_attempt {A} (r : result A) :
  delays (failed_attempt_events r) = S (delays (events r)).
Proof.
  unfold failed_attempt_events.
  change (Call :: ?l) with ([Call] ++ l). rewrite !delays_app.
  unfold delays at 1 3. simpl. lia.
Qed.

Lemma delays_failed_attempts {A} (f : nat -> result A) (l : list nat) :
  (forall j, In j l -> delays (events (f j)) = 0%nat) ->
  delays (flat_map (fun j => failed_attempt_events (f j)) l) = length l.
Proof.
  induction l as [|j l IH]; intros H; [done|].
  cbn [flat_map length]. rewrite delays_app, delays_failed_attempt.
  rewrite H by (by left). rewrite IH; [done|].
  intros j' Hj'. apply H. by right.
Qed.

(** C10: when the operation fails on all [n] attempts (and does not sleep
    for 60 seconds itself), the wrapper sleeps [n] times, not [n - 1]: the
    last failed attempt too is followed by the delay, right before the
    closing message and the exit. *)
Theorem retry_delay_after_every_failure {A} (operation : M A)
    (max_retries : Z) (w : world) :
  (forall j, (j < Z.to_nat max_retries)%nat ->
     failed (attempt operation w j) = true) ->
  (forall j, (j < Z.to_nat max_retries)%nat ->
     delays (events (attempt operation w j)) = 0%nat) ->
  out (retry_operation operation max_retries w) = Raises (SystemExit None)
  /\ delays (events (retry_operation operation max_retries w))
     = Z.to_nat max_retries
  /\ ((1 <= max_retries)%Z ->
      exists pre : list event,
        events (retry_operation operation max_retries w)
        = pre ++ [Sleep 60; Print "Max retries reached. Exiting program."]).
Proof.
  intros Hfail Hquiet. unfold retry_operation.
  rewrite retry_loop_all_failed by done. simpl.
  split; [done|]. split.
  - rewrite delays_app, delays_failed_attempts.
    + rewrite length_seq. unfold delays. simpl. lia.
    + intros j Hj. apply in_seq in Hj. apply Hquiet. lia.
  - intros Hmax. destruct (Z.to_nat max_retries) as [|n] eqn:Hn; [lia|].
    rewrite seq_S, flat_map_app. simpl. rewrite app_nil_r.
    exists (flat_map (fun j => failed_attempt_events (attempt operation w j))
              (seq 0 n)
            ++ Call :: events (attempt operation w n)
            ++ [Print ("Error occurred: " +:+ error_text (attempt operation w n));
                Print "Retrying..."]).
    rewrite <- !app_assoc. simpl. do 2 f_equal.
    by rewrite <- !app_assoc.
Qed.

Lemma retry_delay_after_every_failure_witness :
  (forall j, (j < Z.to_nat 3)%nat -> failed (attempt boom calm j) = true) /\
  (forall j, (j < Z.to_nat 3)%nat ->
     delays (events (attempt boom calm j)) = 0%nat) /\
  out (retry_operation boom 3 calm) = Raises (SystemExit None) /\
  delays (events (retry_operation boom 3 calm)) = Z.to_nat 3 /\
  ((1 <= 3)%Z ->
   exists pre : list event,
     events (retry_operation boom 3 calm)
     = pre ++ [Sleep 60; Print "Max retries reached. Exiting program."]).
Proof.
  assert (H1 : forall j, (j < Z.to_nat 3)%nat ->
                 failed (attempt boom calm j) = true).
  { intros j _. reflexivity. }
  assert (H2 : forall j, (j < Z.to_nat 3)%nat ->
                 delays (events (attempt boom calm j)) = 0%nat).
  { intros j _. reflexivity. }
  split; [exact H1 | split; [exact H2|]].
  exact (retry_delay_after_every_failure boom 3 calm H1 H2).
Defined.

(** ** Remote calls *)

Lemma api_call_ok (ep : endpoint) (w : world) :
  fails_next ep w = false ->
  api_call ep w = {| out := Returns tt; final := consume ep w; events := [] |}.
Proof.
  unfold fails_next, api_call. by destruct (faults w ep) as [|[[c msg]|] l].
Qed.

Lemma api_call_fails (ep : endpoint) (w : world) :
  fails_next ep w = true ->
  exists c msg,
    api_call ep w
    = {| out := Raises (Exception c msg); final := consume ep w; events := [] |}.
Proof.
  unfold fails_next, api_call.
  destruct (faults w ep) as [|[[c msg]|] l]; try done. eauto.
Qed.

(** ** Alert fetcher *)

Lemma append_assoc (a b c : string) : (a +:+ b) +:+ c = a +:+ b +:+ c.
Proof.
  induction a as [|x a IH]; [done|]. rewrite !append_cons. by rewrite IH.
Qed.

Lemma qualifies_iff (min_severity : Z) (a : alert) :
  qualifies min_severity a = true <->
  exists sev se,
    severity a = Some sev /\ service_effect a = Some se
    /\ (min_severity <= sev)%Z /\ ~ occurs_ci "change" se.
Proof.
  unfold qualifies.
  destruct (severity a) as [sev|], (service_effect a) as [se|].
  - rewrite andb_true_iff, negb_true_iff, Z.leb_le. split.
    + intros [Hs Hc]. exists sev, se. repeat split; [done|].
      rewrite <- str_in_lower_iff. by rewrite Hc.
    + intros (sev' & se' & [= <-] & [= <-] & Hs & Hc).
      split; [done|]. rewrite <- str_in_lower_iff in Hc.
      by destruct (str_in "change" (lower se)).
  - split; [done | by intros (? & ? & _ & ? & _)].
  - split; [done | by intros (? & ? & ? & _)].
  - split; [done | by intros (? & ? & ? & _)].
Qed.

Lemma alerts_loop_filter (min_severity : Z) (alerts : list alert)
    (text : string) (w : world) :
  Forall well_formed alerts ->
  alerts_loop min_severity alerts text w
  = ret (text +:+ blocks (List.filter (qualifies min_severity) alerts)) w.
Proof.
  intros H. revert text.
  induction H as [|a alerts [[sev Hsev] [se Hse]] _ IH]; intros text; simpl.
  - unfold blocks. simpl. f_equal.
    induction text as [|c t IHt]; [done|]. rewrite append_cons. by rewrite <- IHt.
  - unfold qualifies. rewrite Hsev, Hse.
    replace (sev >=? min_severity)%Z with (min_severity <=? sev)%Z
      by (rewrite Z.geb_leb; done).
    destruct (min_severity <=? sev)%Z; simpl; [|apply IH].
    destruct (str_in "change" (lower se)); simpl; [apply IH|].
    rewrite IH. unfold blocks. simpl. by rewrite append_assoc.
Qed.

Lemma lower_ascii_same_letter (a : ascii) : same_letter a (lower_ascii a).
Proof.
  unfold lower_ascii, same_letter, is_capital.
  destruct (Nat.leb_spec 65 (nat_of_ascii a)) as [H1|H1]; simpl; [|by left].
  destruct (Nat.leb_spec (nat_of_ascii a) 90) as [H2|H2]; [|by left].
  right. left. split; [lia|]. apply nat_ascii_embedding. lia.
Qed.

Lemma same_letter_lower (a b : ascii) :
  same_letter a b -> lower_ascii b = b -> lower_ascii a = b.
Proof.
  unfold same_letter, is_capital. intros [->|[[Ha Hb]|[Hb Ha]]] Hlow; [done| |].
  - unfold lower_ascii.
    replace (65 <=? nat_of_ascii a)%nat with true
      by (symmetry; apply Nat.leb_le; lia).
    replace (nat_of_ascii a <=? 90)%nat with true
      by (symmetry; apply Nat.leb_le; lia).
    simpl. rewrite <- Hb. apply ascii_nat_embedding.
  - exfalso. unfold lower_ascii in Hlow.
    replace (65 <=? nat_of_ascii b)%nat with true in Hlow
      by (symmetry; apply Nat.leb_le; lia).
    replace (nat_of_ascii b <=? 90)%nat with true in Hlow
      by (symmetry; apply Nat.leb_le; lia).
    simpl in Hlow. apply (f_equal nat_of_ascii) in Hlow.
    rewrite nat_ascii_embedding in Hlow by lia. lia.
Qed.

(** Lowering reaches a text that is its own lowering exactly from the
    texts that read the same when case is ignored. *)
Lemma lower_same_text (mid sub : string) :
  lower sub = sub -> (lower mid = sub <-> same_text mid sub).
Proof.
  intros Hsub. split.
  - intros <-. clear Hsub. induction mid as [|a mid IH]; simpl; constructor;
      [apply lower_ascii_same_letter | done].
  - intros H. induction H as [|a b s t Hab _ IH]; [done|].
    simpl in Hsub. injection Hsub as Hb Ht. simpl.
    by rewrite (same_letter_lower _ _ Hab Hb), IH.
Qed.

Lemma occurs_ci_ignoring_case (sub s : string) :
  lower sub = sub -> (occurs_ci sub s <-> occurs_ignoring_case sub s).
Proof.
  intros Hsub. unfold occurs_ci, occurs_ignoring_case.
  split; intros (a & mid & b & Hs & Hm); exists a, mid, b; (split; [done|]);
    by apply (lower_same_text mid sub Hsub).
Qed.

Lemma alert_block_markdown (a : alert) : alert_block a = markdown_of a.
Proof.
  unfold alert_block, markdown_of, markdown_block, shown, str_of_opt.
  destruct (service_effect a), (timeframe a), (header a); reflexivity.
Qed.

Lemma append_nil_r (s : string) : s +:+ EmptyString = s.
Proof. induction s as [|c s IH]; [done|]. rewrite append_cons. by rewrite IH. Qed.

Lemma blocks_concat (alerts : list alert) :
  blocks alerts = String.concat EmptyString (map markdown_of alerts).
Proof.
  induction alerts as [|a [|b rest] IH]; [done| |].
  - unfold blocks. simpl. by rewrite append_nil_r, alert_block_markdown.
  - change (blocks (a :: b :: rest))
      with (alert_block a +:+ blocks (b :: rest)).
    rewrite IH, alert_block_markdown. cbn [map String.concat].
    by rewrite append_nil_l.
Qed.

(** C3: for a successful response, the text is the heading followed by the
    Markdown of exactly the alerts that pass the filter, in the order of
    the response; an alert passes if and only if its severity is at least
    [min_severity] and no stretch of its service-effect text reads
    "change" when case is ignored. *)
Theorem get_mbta_delays_filter (api_key : string) (min_severity : Z)
    (w : world) :
  fails_next MbtaGet w = false ->
  status_code (mbta_api w) = 200%Z ->
  Forall well_formed (json (mbta_api w)) ->
  (forall a,
     qualifies min_severity a = true <->
     exists sev se,
       severity a = Some sev /\ service_effect a = Some se
       /\ (min_severity <= sev)%Z /\ ~ occurs_ignoring_case "change" se)
  /\ out (get_mbta_delays api_key min_severity w)
     = Returns
         match json (mbta_api w) with
         | [] => "No current delays on the MBTA."
         | _ :: _ =>
             "# Current delays on the MBTA:"
             +:+ String (ascii_of_nat 10) (String (ascii_of_nat 10) EmptyString)
             +:+ String.concat EmptyString
                   (map markdown_of
                      (List.filter (qualifies min_severity)
                         (json (mbta_api w))))
         end.
Proof.
  intros Hok Hstatus Hwf. split.
  - intros a. rewrite qualifies_iff.
    split; intros (sev & se & H1 & H2 & H3 & H4); exists sev, se;
      repeat split; try done; intros Hocc; apply H4;
      by apply (occurs_ci_ignoring_case "change" se eq_refl).
  - unfold get_mbta_delays.
    rewrite (bind_returns _ _ _ tt) by (by rewrite api_call_ok).
    rewrite api_call_ok by done. simpl.
    unfold bind, get. simpl. rewrite Hstatus. simpl.
    destruct (json (mbta_api w)) as [|a l] eqn:Hj; [done|].
    rewrite alerts_loop_filter by done. cbn [ret out].
    by rewrite blocks_concat.
Qed.

Lemma get_mbta_delays_filter_witness :
  fails_next MbtaGet three_alerts = false /\
  status_code (mbta_api three_alerts) = 200%Z /\
  Forall well_formed (json (mbta_api three_alerts)) /\
  out (get_mbta_delays "k1" 1 three_alerts)
  = Returns
      match json (mbta_api three_alerts) with
      | [] => "No current delays on the MBTA."
      | _ :: _ =>
          "# Current delays on the MBTA:"
          +:+ String (ascii_of_nat 10) (String (ascii_of_nat 10) EmptyString)
          +:+ String.concat EmptyString
                (map markdown_of
                   (List.filter (qualifies 1) (json (mbta_api three_alerts))))
      end.
Proof.
  assert (H : Forall well_formed (json (mbta_api three_alerts))).
  { repeat constructor; simpl; eauto. }
  split; [reflexivity | split; [reflexivity | split; [exact H|]]].
  exact (proj2 (get_mbta_delays_filter "k1" 1 three_alerts eq_refl eq_refl H)).
Defined.

(** "Service CHANGE" reads "change" when case is ignored. *)
Example service_change_ignoring_case :
  occurs_ignoring_case "change" "Service CHANGE".
Proof.
  exists "Service ", "CHANGE", EmptyString. split; [reflexivity|].
  repeat constructor; right; left; (split; [unfold is_capital; simpl; lia|]);
    reflexivity.
Qed.

Example three_alerts_text :
  out (get_mbta_delays "k1" 1 three_alerts)
  = Returns ("# Current delays on the MBTA:" +:+ nl +:+ nl
             +:+ "**Delay** - ongoing" +:+ nl +:+ nl
             +:+ "Cause: Orange Line: signal problem" +:+ nl +:+ nl).
Proof. reflexivity. Qed.

(** C1, as amended: a successful response whose list of alerts is empty
    yields exactly "No current delays on the MBTA." *)
Theorem get_mbta_delays_no_alerts (api_key : string) (min_severity : Z)
    (w : world) :
  fails_next MbtaGet w = false ->
  status_code (mbta_api w) = 200%Z ->
  json (mbta_api w) = [] ->
  out (get_mbta_delays api_key min_severity w)
  = Returns "No current delays on the MBTA.".
Proof.
  intros Hok Hstatus Hempty. unfold get_mbta_delays.
  rewrite (bind_returns _ _ _ tt) by (by rewrite api_call_ok).
  rewrite api_call_ok by done. simpl.
  unfold bind, get. simpl. by rewrite Hstatus, Hempty.
Qed.

Lemma get_mbta_delays_no_alerts_witness :
  fails_next MbtaGet calm = false /\
  status_code (mbta_api calm) = 200%Z /\
  json (mbta_api calm) = [] /\
  out (get_mbta_delays "k1" 1 calm) = Returns "No current delays on the MBTA.".
Proof.
  split; [reflexivity | split; [reflexivity | split; [reflexivity|]]].
  exact (get_mbta_delays_no_alerts "k1" 1 calm eq_refl eq_refl eq_refl).
Defined.

(** C1, as stated, fails: the only alert of the response is a service
    change, so no alert qualifies, yet the text is the bare heading. *)
Lemma heading_without_alerts :
  status_code (mbta_api service_change_only) = 200%Z
  /\ List.filter (qualifies 1) (json (mbta_api service_change_only)) = []
  /\ out (get_mbta_delays "k1" 1 service_change_only)
     = Returns ("# Current delays on the MBTA:" +:+ nl +:+ nl)
  /\ out (get_mbta_delays "k1" 1 service_change_only)
     <> Returns "No current delays on the MBTA.".
Proof. repeat split; try reflexivity. discriminate. Qed.

(** ** Thread locator and comment upserter *)

Lemma reliable_ok (ep : endpoint) (w : world) :
  reliable w -> fails_next ep w = false.
Proof.
  intros H. unfold fails_next. specialize (H ep).
  destruct (faults w ep) as [|[f|] l]; [done| |done].
  by inversion H.
Qed.

Lemma reliable_consume (ep : endpoint) (w : world) :
  reliable w -> reliable (consume ep w).
Proof.
  intros H ep'. simpl. destruct (endpoint_eqb ep ep'); [|apply H].
  specialize (H ep). destruct (faults w ep); [done|]. by inversion H.
Qed.

Lemma post_loop_no_thread (sub text : string) (posts : list post) (i : nat)
    (w : world) :
  Forall (fun p => is_weekly_sticky p = false) posts ->
  post_loop sub text posts i w = ret false w.
Proof.
  intros H. revert i. induction H as [|p posts Hp _ IH]; intros i; simpl.
  - done.
  - rewrite Hp. apply IH.
Qed.

(** C8: when no post of the fetched hot listing is both pinned and
    carries the title marker, posting is skipped: the function returns
    normally and the listing, hence every comment list, is as before. *)
Theorem post_skipped_without_thread (sub text : string) (w : world) :
  Forall (fun p => is_weekly_sticky p = false) (take 10 (hot w)) ->
  out (post_comment_in_daily_discussion sub text w) = Returns tt
  /\ hot (final (post_comment_in_daily_discussion sub text w)) = hot w.
Proof.
  intros H. unfold post_comment_in_daily_discussion, try_except, subreddit_hot.
  destruct (fails_next HotListing w) eqn:Hf.
  - destruct (api_call_fails _ _ Hf) as (c & msg & Hc).
    unfold bind. rewrite Hc. simpl. done.
  - unfold bind. rewrite (api_call_ok _ _ Hf). simpl.
    rewrite post_loop_no_thread by done. simpl. done.
Qed.

Lemma post_skipped_without_thread_witness :
  Forall (fun p => is_weekly_sticky p = false) (take 10 (hot without_thread))
  /\ out (post_comment_in_daily_discussion "boston" "text" without_thread)
     = Returns tt
  /\ hot (final (post_comment_in_daily_discussion "boston" "text" without_thread))
     = hot without_thread.
Proof.
  assert (H : Forall (fun p => is_weekly_sticky p = false)
                (take 10 (hot without_thread))).
  { repeat constructor. }
  split; [exact H|].
  exact (post_skipped_without_thread "boston" "text" without_thread H).
Defined.

Lemma bind_run {A B} (m : M A) (k : A -> M B) (w w' : world) (a : A)
    (evs : list event) :
  m w = {| out := Returns a; final := w'; events := evs |} ->
  bind m k w = after evs (k a w').
Proof. intros H. unfold bind. by rewrite H. Qed.

Lemma bind_assoc {A B C} (m : M A) (k1 : A -> M B) (k2 : B -> M C)
    (w : world) :
  bind (bind m k1) k2 w = bind m (fun a => bind (k1 a) k2) w.
Proof.
  unfold bind. destruct (m w) as [[a|e] w1 ev1]; simpl; [|done].
  destruct (k1 a w1) as [[b|e] w2 ev2]; simpl; [|done].
  unfold after. simpl. by rewrite app_assoc.
Qed.

Lemma subreddit_hot_ok (limit : option nat) (w : world) :
  fails_next HotListing w = false ->
  subreddit_hot limit w
  = {| out := Returns (match limit with
                       | Some n => take n (hot w)
                       | None => hot w
                       end);
       final := consume HotListing w;
       events := [] |}.
Proof.
  intros H. unfold subreddit_hot, bind. by rewrite (api_call_ok _ _ H).
Qed.

Lemma find_marked_none (cs : list comment) (j : nat) :
  List.filter is_marked cs = [] -> find_marked marker cs j = None.
Proof.
  revert j. induction cs as [|c cs IH]; intros j H; simpl in *; [done|].
  unfold is_marked in H at 1. destruct (str_in marker (body c)); [done|].
  by apply IH.
Qed.

Lemma find_marked_new (cs : list comment) (c : comment) (j : nat) :
  List.filter is_marked cs = [] -> is_marked c = true ->
  find_marked marker (cs ++ [c]) j = Some (j + length cs)%nat.
Proof.
  revert j. induction cs as [|c0 cs IH]; intros j H Hc; simpl in *.
  - unfold is_marked in Hc. rewrite Hc. f_equal. lia.
  - unfold is_marked in H at 1. destruct (str_in marker (body c0)); [done|].
    rewrite IH by done. f_equal. lia.
Qed.

Lemma status_comments_app (h1 h2 : list post) :
  status_comments (h1 ++ h2) = status_comments h1 ++ status_comments h2.
Proof. unfold status_comments. apply flat_map_app. Qed.

Lemma status_comments_no_thread (h : list post) :
  Forall (fun p => is_weekly_sticky p = false) h -> status_comments h = [].
Proof.
  induction 1 as [|p h Hp _ IH]; [done|].
  unfold status_comments in *. simpl. by rewrite Hp, IH.
Qed.

(** Looking for the status comment when there is none: every pinned
    weekly thread is expanded and searched, nothing is found. *)
Lemma check_loop_none (posts : list post) (i : nat) (w : world) :
  reliable w -> status_comments posts = [] ->
  exists w',
    check_loop marker posts i w
    = {| out := Returns None; final := w'; events := [] |}
    /\ hot w' = hot w /\ reliable w'.
Proof.
  revert i w. induction posts as [|p posts IH]; intros i w Hr Hs; simpl.
  - by exists w.
  - change (p :: posts) with ([p] ++ posts) in Hs.
    rewrite status_comments_app in Hs. apply app_eq_nil in Hs as [Hp Hs].
    unfold status_comments in Hp. simpl in Hp. rewrite app_nil_r in Hp.
    destruct (is_weekly_sticky p).
    + rewrite (bind_run _ _ _ _ _ _ (api_call_ok _ _ (reliable_ok _ _ Hr))).
      rewrite after_nil, (find_marked_none _ _ Hp).
      destruct (IH (S i) (consume ReplaceMore w)) as (w' & Hw' & Hh & Hr');
        [by apply reliable_consume | done |].
      exists w'. by rewrite Hw'.
    + by apply IH.
Qed.

Lemma check_loop_found (before rest : list post) (thread : post) (i j : nat)
    (w : world) :
  reliable w ->
  Forall (fun p => is_weekly_sticky p = false) before ->
  is_weekly_sticky thread = true ->
  find_marked marker (comments thread) 0 = Some j ->
  check_loop marker (before ++ thread :: rest) i w
  = {| out := Returns (Some ((i + length before)%nat, j));
       final := consume ReplaceMore w;
       events := [] |}.
Proof.
  intros Hr Hb Ht Hj. revert i.
  induction Hb as [|p before Hp _ IH]; intros i; simpl.
  - rewrite Ht.
    rewrite (bind_run _ _ _ _ _ _ (api_call_ok _ _ (reliable_ok _ _ Hr))).
    rewrite after_nil, Hj. unfold ret. by rewrite Nat.add_0_r.
  - rewrite Hp, IH. by rewrite Nat.add_succ_r.
Qed.

Lemma post_loop_found (sub text : string) (before rest : list post)
    (thread : post) (i : nat) (w : world) :
  reliable w ->
  Forall (fun p => is_weekly_sticky p = false) before ->
  is_weekly_sticky thread = true ->
  post_loop sub text (before ++ thread :: rest) i w
  = {| out := Returns true;
       final := set_hot (alter (add_comment text) (i + length before)%nat (hot w))
                  (consume Reply w);
       events := [Print ("Comment posted successfully in " +:+ sub +:+ ": "
                         +:+ title thread)] |}.
Proof.
  intros Hr Hb Ht. revert i.
  induction Hb as [|p before Hp _ IH]; intros i; simpl.
  - rewrite Ht. unfold post_reply.
    unfold bind. rewrite (api_call_ok _ _ (reliable_ok _ _ Hr)). simpl.
    by rewrite Nat.add_0_r.
  - rewrite Hp, IH. by rewrite Nat.add_succ_r.
Qed.

Lemma comment_text_startswith (t weather mbta : string) :
  startswith marker (comment_text t weather mbta) = true.
Proof. apply startswith_iff. unfold comment_text. eauto. Qed.

Lemma comment_text_marked (t weather mbta : string) :
  str_in marker (comment_text t weather mbta) = true.
Proof. unfold comment_text. apply str_in_prefix. Qed.

Lemma take_10_thread (before rest : list post) (thread : post) :
  (length before < 10)%nat ->
  exists rest', take 10 (before ++ thread :: rest) = before ++ thread :: rest'.
Proof.
  intros H. rewrite take_app_ge by lia.
  destruct (10 - length before)%nat as [|n] eqn:Hn; [lia|].
  simpl. eauto.
Qed.

Lemma alter_thread {X} (f : X -> X) (before rest : list X) (x : X) :
  alter f (length before) (before ++ x :: rest) = before ++ f x :: rest.
Proof.
  rewrite <- (Nat.add_0_r (length before)). by rewrite alter_app_r.
Qed.

Lemma post_comment_found (sub text : string) (before rest : list post)
    (thread : post) (w : world) :
  reliable w ->
  hot w = before ++ thread :: rest ->
  (length before < 10)%nat ->
  Forall (fun p => is_weekly_sticky p = false) before ->
  is_weekly_sticky thread = true ->
  out (post_comment_in_daily_discussion sub text w) = Returns tt
  /\ hot (final (post_comment_in_daily_discussion sub text w))
     = before ++ add_comment text thread :: rest.
Proof.
  intros Hr Hh Hlen Hb Ht.
  destruct (take_10_thread before rest thread Hlen) as (rest' & Htake).
  unfold post_comment_in_daily_discussion, try_except.
  rewrite (bind_run _ _ _ _ _ _ (subreddit_hot_ok _ _ (reliable_ok _ _ Hr))).
  rewrite after_nil, Hh, Htake.
  rewrite (bind_run _ _ _ _ _ _
             (post_loop_found sub text before rest' thread 0 _
                (reliable_consume _ _ Hr) Hb Ht)).
  simpl. by rewrite Hh, alter_thread.
Qed.

Lemma is_weekly_sticky_add (text : string) (p : post) :
  is_weekly_sticky (add_comment text p) = is_weekly_sticky p.
Proof. done. Qed.

Lemma status_comments_thread (before rest : list post) (thread : post) :
  is_weekly_sticky thread = true ->
  status_comments (before ++ thread :: rest)
  = status_comments before ++ List.filter is_marked (comments thread)
    ++ status_comments rest.
Proof.
  intros Ht. change (thread :: rest) with ([thread] ++ rest).
  rewrite !status_comments_app. unfold status_comments at 2. simpl.
  by rewrite Ht, app_nil_r.
Qed.

Lemma set_body_new (text1 text2 : string) (p : post) :
  set_body (length (comments p)) text2 (add_comment text1 p)
  = add_comment text2 p.
Proof.
  unfold set_body, add_comment. simpl. f_equal.
  rewrite <- (Nat.add_0_r (length (comments p))). by rewrite insert_app_r.
Qed.

(** C7: in a listing whose first pinned weekly thread is among the ten
    hottest posts and where no pinned weekly thread holds a marked comment,
    with every platform call going through, one upsert adds exactly one
    comment, the composed text, to that thread; an upsert on the listing so
    obtained replaces the body of that very comment by the new text: the
    thread keeps its former comments plus one status comment, and the
    status comments of the listing are that one comment, before and after. *)
Theorem upsert_idempotent (cfg : config) (w w2 : world)
    (before rest : list post) (thread : post)
    (t1 weather1 mbta1 t2 weather2 mbta2 : string) :
  let text1 := comment_text t1 weather1 mbta1 in
  let text2 := comment_text t2 weather2 mbta2 in
  reliable w -> reliable w2 ->
  hot w = before ++ thread :: rest ->
  (length before < 10)%nat ->
  Forall (fun p => is_weekly_sticky p = false) before ->
  is_weekly_sticky thread = true ->
  status_comments (hot w) = [] ->
  hot w2 = hot (final (upsert cfg text1 w)) ->
  (out (upsert cfg text1 w) = Returns tt
   /\ hot (final (upsert cfg text1 w))
      = before ++ add_comment text1 thread :: rest
   /\ status_comments (hot (final (upsert cfg text1 w)))
      = [ {| body := text1 |} ])
  /\
  (out (upsert cfg text2 w2) = Returns tt
   /\ hot (final (upsert cfg text2 w2))
      = before ++ add_comment text2 thread :: rest
   /\ status_comments (hot (final (upsert cfg text2 w2)))
      = [ {| body := text2 |} ]).
Proof.
  intros text1 text2 Hr Hr2 Hh Hlen Hb Ht Hs Hw2.
  pose proof Hs as Hs'. rewrite Hh, status_comments_thread in Hs' by done.
  apply app_eq_nil in Hs' as [Hsb Hs']. apply app_eq_nil in Hs' as [Hst Hsr].
  assert (Hposted : forall text, str_in marker text = true ->
            status_comments (before ++ add_comment text thread :: rest)
            = [ {| body := text |} ]).
  { intros text Hm. rewrite status_comments_thread by done.
    rewrite Hsb, Hsr. simpl. rewrite List.filter_app, Hst. simpl.
    unfold is_marked. simpl. by rewrite Hm. }
  assert (H1 : out (upsert cfg text1 w) = Returns tt
               /\ hot (final (upsert cfg text1 w))
                  = before ++ add_comment text1 thread :: rest).
  { unfold upsert, check_comment_in_stickied_thread.
    rewrite (bind_run _ _ _ _ _ _ (eq_refl (logger_info _ w))).
    rewrite bind_assoc.
    rewrite (bind_run _ _ _ _ _ _ (subreddit_hot_ok None _ (reliable_ok _ _ Hr))).
    destruct (check_loop_none (hot w) 0 (consume HotListing w))
      as (w' & Hw' & Hh' & Hr'); [by apply reliable_consume | done |].
    rewrite after_nil, (bind_run _ _ _ _ _ _ Hw').
    rewrite (bind_run _ _ _ _ _ _ (eq_refl (logger_info _ w'))).
    destruct (post_comment_found (subreddit_name cfg) text1 before rest thread w')
      as [Ho Hf]; [done | by rewrite Hh' | done..|].
    rewrite (bind_returns _ _ _ _ Ho). simpl. done. }
  destruct H1 as [Ho1 Hf1]. rewrite Hf1 in Hw2.
  split.
  { split; [done|]. split; [done|]. rewrite Hf1.
    apply Hposted, comment_text_marked. }
  assert (Hfind : find_marked marker (comments (add_comment text1 thread)) 0
                  = Some (0 + length (comments thread))%nat).
  { apply find_marked_new; [done|]. apply comment_text_marked. }
  assert (H2 : out (upsert cfg text2 w2) = Returns tt
               /\ hot (final (upsert cfg text2 w2))
                  = before ++ add_comment text2 thread :: rest).
  { unfold upsert, check_comment_in_stickied_thread.
    rewrite (bind_run _ _ _ _ _ _ (eq_refl (logger_info _ w2))).
    rewrite bind_assoc.
    rewrite (bind_run _ _ _ _ _ _ (subreddit_hot_ok None _ (reliable_ok _ _ Hr2))).
    rewrite after_nil, Hw2.
    rewrite (bind_run _ _ _ _ _ _
               (check_loop_found before rest (add_comment text1 thread) 0 _
                  (consume HotListing w2) (reliable_consume _ _ Hr2) Hb Ht Hfind)).
    unfold try_except_praw, comment_edit, bind.
    rewrite (api_call_ok Edit) by (by do 3 apply reliable_ok || apply reliable_consume).
    simpl. rewrite Hw2, alter_thread, set_body_new. done. }
  destruct H2 as [Ho2 Hf2].
  split; [done|]. split; [done|]. rewrite Hf2.
  apply Hposted, comment_text_marked.
Qed.

Lemma upsert_idempotent_witness :
  let text1 := comment_text "09:00" "sunny" "no delays" in
  let text2 := comment_text "09:05" "sunny" "no delays" in
  let w2 := after_first_upsert sample_config text1 in
  reliable with_thread /\ reliable w2 /\
  hot with_thread = [rules_post] ++ weekly_thread :: [sunset_post] /\
  (length [rules_post] < 10)%nat /\
  Forall (fun p => is_weekly_sticky p = false) [rules_post] /\
  is_weekly_sticky weekly_thread = true /\
  status_comments (hot with_thread) = [] /\
  hot w2 = hot (final (upsert sample_config text1 with_thread)) /\
  (out (upsert sample_config text1 with_thread) = Returns tt
   /\ hot (final (upsert sample_config text1 with_thread))
      = [rules_post] ++ add_comment text1 weekly_thread :: [sunset_post]
   /\ status_comments (hot (final (upsert sample_config text1 with_thread)))
      = [ {| body := text1 |} ])
  /\
  (out (upsert sample_config text2 w2) = Returns tt
   /\ hot (final (upsert sample_config text2 w2))
      = [rules_post] ++ add_comment text2 weekly_thread :: [sunset_post]
   /\ status_comments (hot (final (upsert sample_config text2 w2)))
      = [ {| body := text2 |} ]).
Proof.
  intros text1 text2 w2.
  assert (Hr : reliable with_thread) by (intros []; constructor).
  assert (Hr2 : reliable w2) by (intros []; vm_compute; constructor).
  assert (Hlen : (length [rules_post] < 10)%nat) by (simpl; lia).
  assert (Hb : Forall (fun p => is_weekly_sticky p = false) [rules_post])
    by (repeat constructor).
  split; [exact Hr | split; [exact Hr2 | split; [reflexivity|]]].
  split; [exact Hlen | split; [exact Hb | split; [reflexivity|]]].
  split; [reflexivity | split; [reflexivity|]].
  exact (upsert_idempotent sample_config with_thread w2 [rules_post]
           [sunset_post] weekly_thread "09:00" "sunny" "no delays"
           "09:05" "sunny" "no delays" Hr Hr2 eq_refl Hlen Hb eq_refl
           eq_refl eq_refl).
Defined.

(** ** What a cycle writes *)

Section Keeps.
Variable R : list post -> list post -> Prop.
Hypothesis R_refl : forall h, R h h.
Hypothesis R_trans : forall a b c, R a b -> R b c -> R a c.

Lemma keeps_ret {A} (a : A) : keeps R (ret a).
Proof. intros w. apply R_refl. Qed.

Lemma keeps_raise {A} (e : exn) : keeps R (@raise A e).
Proof. intros w. apply R_refl. Qed.

Lemma keeps_emit (ev : event) : keeps R (emit ev).
Proof. intros w. apply R_refl. Qed.

Lemma keeps_get {A} (f : world -> A) : keeps R (get f).
Proof. intros w. apply R_refl. Qed.

Lemma keeps_api_call (ep : endpoint) : keeps R (api_call ep).
Proof.
  intros w. unfold api_call.
  destruct (faults w ep) as [|[[c msg]|] l]; apply R_refl.
Qed.

Lemma keeps_modify (f : world -> world) :
  (forall w, R (hot w) (hot (f w))) -> keeps R (modify f).
Proof. intros H w. apply H. Qed.

Lemma keeps_bind {A B} (m : M A) (k : A -> M B) :
  keeps R m -> (forall a, keeps R (k a)) -> keeps R (bind m k).
Proof.
  intros Hm Hk w. unfold bind. specialize (Hm w).
  destruct (out (m w)) as [a|e]; [|done].
  simpl. eapply R_trans; [exact Hm | apply Hk].
Qed.

Lemma keeps_try_except {A} (body : M A) (h : exn -> M A) :
  keeps R body -> (forall e, keeps R (h e)) -> keeps R (try_except body h).
Proof.
  intros Hb Hh w. unfold try_except. specialize (Hb w).
  destruct (out (body w)) as [a|[c msg|code]]; try done.
  simpl. eapply R_trans; [exact Hb | apply Hh].
Qed.

Lemma keeps_try_except_praw {A} (body : M A) (h : exn -> M A) :
  keeps R body -> (forall e, keeps R (h e)) ->
  keeps R (try_except_praw body h).
Proof.
  intros Hb Hh w. unfold try_except_praw. specialize (Hb w).
  destruct (out (body w)) as [a|[[|] msg|code]]; try done.
  simpl. eapply R_trans; [exact Hb | apply Hh].
Qed.

Ltac keeps_step :=
  match goal with
  | |- keeps _ (bind _ _) => apply keeps_bind; [|intros ?]
  | |- keeps _ (try_except _ _) => apply keeps_try_except; [|intros ?]
  | |- keeps _ (try_except_praw _ _) =>
      apply keeps_try_except_praw; [|intros ?]
  | |- keeps _ (if ?b then _ else _) => destruct b
  | |- keeps _ (match ?x with _ => _ end) => destruct x
  | |- keeps _ (ret _) => apply keeps_ret
  | |- keeps _ (raise _) => apply keeps_raise
  | |- keeps _ (get _) => apply keeps_get
  | |- keeps _ (api_call _) => apply keeps_api_call
  | |- keeps _ (emit _) => apply keeps_emit
  | |- keeps _ (print _) => apply keeps_emit
  | |- keeps _ (logger_info _) => apply keeps_emit
  | |- keeps _ (logger_warning _) => apply keeps_emit
  | |- keeps _ (logger_error _) => apply keeps_emit
  | |- keeps _ (time_sleep _) => apply keeps_emit
  end.

Lemma keeps_alerts_loop (min_sev : Z) (alerts : list alert) (text : string) :
  keeps R (alerts_loop min_sev alerts text).
Proof.
  revert text. induction alerts as [|a alerts IH]; intros text; simpl;
    repeat keeps_step; apply IH.
Qed.

Lemma keeps_get_mbta_delays (key : string) (min_sev : Z) :
  keeps R (get_mbta_delays key min_sev).
Proof.
  unfold get_mbta_delays. repeat keeps_step. apply keeps_alerts_loop.
Qed.

Lemma keeps_get_weather (key : string) : keeps R (get_weather key).
Proof. unfold get_weather. repeat keeps_step. Qed.

Lemma keeps_subreddit_hot (limit : option nat) : keeps R (subreddit_hot limit).
Proof. unfold subreddit_hot. repeat keeps_step. Qed.

Lemma keeps_check_loop (m : string) (posts : list post) (i : nat) :
  keeps R (check_loop m posts i).
Proof.
  revert i. induction posts as [|p posts IH]; intros i; simpl;
    repeat keeps_step; apply IH.
Qed.

Lemma keeps_is_probably_crowd_control (it : item) (bot : string) :
  keeps R (is_probably_crowd_control it bot).
Proof. unfold is_probably_crowd_control, mod_log. repeat keeps_step. Qed.

Lemma keeps_sweep_loop (bot : string) (items : list item) (i : nat) (n : Z) :
  keeps R (sweep_loop bot items i n).
Proof.
  revert i n. induction items as [|it items IH]; intros i n; simpl.
  - keeps_step.
  - destruct (is_comment it); [|apply IH].
    apply keeps_bind; [apply keeps_is_probably_crowd_control|].
    intros [|]; [|apply IH].
    unfold mod_remove_spam. repeat keeps_step; try apply IH.
    apply keeps_modify. intros w. apply R_refl.
Qed.

Lemma keeps_monitor (sub bot : string) :
  keeps R (monitor_modqueue_for_crowd_control sub bot).
Proof.
  unfold monitor_modqueue_for_crowd_control. repeat keeps_step.
  apply keeps_sweep_loop.
Qed.

(** Texts that may be written, and what writing one does to [R]. *)
Variable good : string -> Prop.
Hypothesis R_reply :
  forall text i h, good text -> R h (alter (add_comment text) i h).
Hypothesis R_edit :
  forall text i j h, good text -> R h (alter (set_body j text) i h).

Lemma keeps_post_loop (sub text : string) (posts : list post) (i : nat) :
  good text -> keeps R (post_loop sub text posts i).
Proof.
  intros Hg. revert i. induction posts as [|p posts IH]; intros i; simpl.
  - keeps_step.
  - destruct (is_weekly_sticky p); [|apply IH].
    unfold post_reply. repeat keeps_step.
    apply keeps_modify. intros w. simpl. by apply R_reply.
Qed.

Lemma keeps_upsert (cfg : config) (text : string) :
  good text -> keeps R (upsert cfg text).
Proof.
  intros Hg.
  unfold upsert, check_comment_in_stickied_thread,
    post_comment_in_daily_discussion, comment_edit.
  repeat keeps_step;
    try apply keeps_subreddit_hot; try apply keeps_check_loop;
    try (by apply keeps_post_loop).
  apply keeps_modify. intros w. simpl. by apply R_edit.
Qed.

Lemma keeps_main_logic (cfg : config) :
  (forall t weather mbta, good (comment_text t weather mbta)) ->
  keeps R (main_logic cfg).
Proof.
  intros Hg. unfold main_logic, main_logic_body.
  repeat keeps_step;
    try apply keeps_get_mbta_delays; try apply keeps_get_weather;
    try apply keeps_monitor.
  apply keeps_upsert, Hg.
Qed.
End Keeps.

Lemma In_alter {X} (f : X -> X) (i : nat) (l : list X) (y : X) :
  In y (alter f i l) -> In y l \/ exists x, In x l /\ y = f x.
Proof.
  revert i. induction l as [|x l IH]; intros [|i] H; simpl in H; try done.
  - destruct H as [<-|H]; [right; exists x; by split; [left|] | left; by right].
  - destruct H as [<-|H]; [left; by left|].
    destruct (IH _ H) as [?|(x' & ? & ->)]; [left; by right|].
    right. exists x'. split; [by right | done].
Qed.

Lemma In_insert {X} (j : nat) (x : X) (l : list X) (y : X) :
  In y (<[j:=x]> l) -> In y l \/ y = x.
Proof.
  revert j. induction l as [|x0 l IH]; intros [|j] H; simpl in H; try done.
  - destruct H as [<-|H]; [by right | left; by right].
  - destruct H as [<-|H]; [left; by left|].
    destruct (IH _ H) as [?|?]; [left; by right | by right].
Qed.

Lemma written_refl (h : list post) : written_by_bot h h.
Proof. intros p' c' Hp Hc. left. by exists p'. Qed.

Lemma written_trans (a b c : list post) :
  written_by_bot a b -> written_by_bot b c -> written_by_bot a c.
Proof.
  intros Hab Hbc p'' c'' Hp Hc.
  destruct (Hbc p'' c'' Hp Hc) as [(p' & Hp' & Hc')|?]; [|by right].
  by apply (Hab p' c'').
Qed.

Lemma written_reply (text : string) (i : nat) (h : list post) :
  startswith marker text = true ->
  written_by_bot h (alter (add_comment text) i h).
Proof.
  intros Hg p' c' Hp Hc.
  destruct (In_alter _ _ _ _ Hp) as [?|(p & Hin & ->)]; [left; by exists p'|].
  simpl in Hc. apply in_app_or in Hc as [?|[<-|[]]]; [left; by exists p|].
  by right.
Qed.

Lemma written_edit (text : string) (i j : nat) (h : list post) :
  startswith marker text = true ->
  written_by_bot h (alter (set_body j text) i h).
Proof.
  intros Hg p' c' Hp Hc.
  destruct (In_alter _ _ _ _ Hp) as [?|(p & Hin & ->)]; [left; by exists p'|].
  simpl in Hc. apply In_insert in Hc as [?| ->]; [left; by exists p|].
  by right.
Qed.

(** C9: the text a cycle composes begins with the marker, so a comment
    with that body passes the test of [check_comment_in_stickied_thread]
    and is found in any comment list that holds it; and whatever happens
    during a cycle, each comment on the platform afterwards was there
    before or has a body that begins with the marker. *)
Theorem composed_comment_is_found (cfg : config) (w : world)
    (t weather mbta : string) :
  startswith marker (comment_text t weather mbta) = true
  /\ is_marked {| body := comment_text t weather mbta |} = true
  /\ (forall cs, In {| body := comment_text t weather mbta |} cs ->
        exists j, find_marked marker cs 0 = Some j)
  /\ written_by_bot (hot w) (hot (final (main_logic cfg w))).
Proof.
  split; [apply comment_text_startswith|].
  split; [apply comment_text_marked|].
  split.
  - intros cs. generalize 0%nat.
    induction cs as [|c cs IH]; intros j H; [done|]. cbn [find_marked].
    destruct H as [->|H].
    + cbn [body]. rewrite comment_text_marked. eauto.
    + destruct (str_in marker (body c)); eauto.
  - apply (keeps_main_logic written_by_bot written_refl written_trans
             (fun text => startswith marker text = true)
             written_reply written_edit cfg).
    apply comment_text_startswith.
Qed.

Lemma composed_comment_is_found_witness :
  In {| body := comment_text "09:00" "sunny" "no delays" |}
     [ {| body := "first" |};
       {| body := comment_text "09:00" "sunny" "no delays" |} ]
  /\ exists j,
       find_marked marker
         [ {| body := "first" |};
           {| body := comment_text "09:00" "sunny" "no delays" |} ] 0
       = Some j.
Proof.
  assert (H : In {| body := comment_text "09:00" "sunny" "no delays" |}
                [ {| body := "first" |};
                  {| body := comment_text "09:00" "sunny" "no delays" |} ])
    by (right; left; reflexivity).
  split; [exact H|].
  exact (proj1 (proj2 (proj2 (composed_comment_is_found sample_config calm
                                "09:00" "sunny" "no delays"))) _ H).
Defined.

(** ** Moderation sweeper *)

Lemma crowd_controlled_iff (log : list log_entry) (it : item) :
  crowd_controlled log it = true <->
  exists e, In e (recent_removals log)
            /\ target_fullname e = fullname it /\ mod_name e = "reddit".
Proof.
  unfold crowd_controlled. rewrite existsb_exists.
  split; intros (e & He & H); exists e; (split; [done|]).
  - unfold is_crowd_control_entry in H. apply andb_true_iff in H as [H1 H2].
    by apply String.eqb_eq in H1, H2.
  - destruct H as [H1 H2]. unfold is_crowd_control_entry.
    rewrite H1, H2. by rewrite !String.eqb_refl.
Qed.

(** The log look-up for one entry: a failure is logged and counts as "not
    crowd control"; either way one scheduled outcome is used up. *)
Lemma is_probably_crowd_control_run (it : item) (bot : string) (w : world) :
  exists evs,
    is_probably_crowd_control it bot w
    = {| out := Returns (negb (fails_at (faults w ModLog) 0)
                         && crowd_controlled (modlog w) it);
         final := consume ModLog w;
         events := evs |}.
Proof.
  unfold is_probably_crowd_control, try_except, mod_log, bind, api_call,
    fails_at, crowd_controlled, recent_removals.
  destruct (faults w ModLog) as [|[[c msg]|] l]; simpl; eauto.
Qed.

Lemma fails_at_tail (lf : list fault) (n : nat) :
  fails_at (tail lf) n = fails_at lf (S n).
Proof. unfold fails_at. by rewrite lookup_tail. Qed.

Lemma sweep_flags_lookup (lf : list fault) (log : list log_entry)
    (items : list item) (m : nat) :
  default false (sweep_flags lf log items !! m)
  = match items !! m with
    | Some it =>
        is_comment it && negb (fails_at lf (comments_before items m))
        && crowd_controlled log it
    | None => false
    end.
Proof.
  revert lf m. induction items as [|it items IH]; intros lf m; [done|].
  unfold comments_before. simpl.
  destruct (is_comment it) eqn:Hc; destruct m as [|m]; simpl.
  - by rewrite Hc.
  - rewrite Hc. simpl. rewrite IH, <- fails_at_tail. done.
  - by rewrite Hc.
  - rewrite Hc. apply IH.
Qed.

Lemma leb_S_self (i : nat) : (S i <=? i)%nat = false.
Proof. apply Nat.leb_gt. lia. Qed.

Lemma flag_shift (i k : nat) (b : bool) (fs : list bool) :
  (i <=? k)%nat && default false ((b :: fs) !! (k - i)%nat)
  = if decide (k = i) then b
    else (S i <=? k)%nat && default false (fs !! (k - S i)%nat).
Proof.
  case_decide as Hk.
  - subst k. by rewrite Nat.leb_refl, Nat.sub_diag.
  - destruct (Nat.leb_spec i k) as [Hle|Hlt].
    + replace (S i <=? k)%nat with true by (symmetry; apply Nat.leb_le; lia).
      by replace (k - i)%nat with (S (k - S i)) by lia.
    + by replace (S i <=? k)%nat with false by (symmetry; apply Nat.leb_gt; lia).
Qed.

Lemma sweep_loop_run (bot : string) (items : list item) (i : nat) (n : Z)
    (w : world) :
  Forall (fun f : fault => f = None) (faults w Remove) ->
  (exists n', out (sweep_loop bot items i n w) = Returns n')
  /\ forall k x,
       modqueue w !! k = Some x ->
       modqueue (final (sweep_loop bot items i n w)) !! k
       = Some (if (i <=? k)%nat
                  && default false
                       (sweep_flags (faults w ModLog) (modlog w) items
                        !! (k - i)%nat)
               then mark_spam x else x).
Proof.
  revert i n w. induction items as [|it items IH]; intros i n w Hrm.
  { split; [by exists n|]. intros k x Hk. cbn [sweep_loop sweep_flags].
    rewrite lookup_nil, andb_false_r. exact Hk. }
  cbn [sweep_loop sweep_flags].
  destruct (is_comment it) eqn:Hc.
  - destruct (is_probably_crowd_control_run it bot w) as (evs & Hrun).
    rewrite (bind_run _ _ _ _ _ _ Hrun).
    destruct (negb (fails_at (faults w ModLog) 0)
              && crowd_controlled (modlog w) it) eqn:Hcc.
    + (* marked: remove, then go on *)
      rewrite (bind_run _ _ _ _ _ _ (eq_refl (logger_info _ _))).
      unfold mod_remove_spam. rewrite !bind_assoc.
      assert (Hok : fails_next Remove (consume ModLog w) = false).
      { unfold fails_next. simpl. destruct (faults w Remove) as [|[f|] l];
          [done| |done]. by inversion Hrm. }
      rewrite (bind_run _ _ _ _ _ _ (api_call_ok _ _ Hok)).
      rewrite (bind_run _ _ _ _ _ _ (eq_refl (modify _ _))).
      set (w3 := set_modqueue _ _).
      destruct (IH (S i) (n + 1)%Z w3) as [[n' Hn'] Hq].
      { subst w3. simpl. destruct (faults w Remove); [done|]. by inversion Hrm. }
      split; [exists n'; by rewrite !after_after|].
      intros k x Hk. rewrite !after_after. cbn [final after].
      rewrite flag_shift. case_decide as Hki.
      * subst k. rewrite (Hq i (mark_spam x)).
        -- by rewrite leb_S_self.
        -- subst w3. simpl. by rewrite list_lookup_alter_eq, Hk.
      * rewrite (Hq k x); [done|].
        subst w3. simpl. by rewrite list_lookup_alter_ne.
    + (* not marked *)
      destruct (IH (S i) n (consume ModLog w)) as [[n' Hn'] Hq]; [done|].
      split; [by exists n'|].
      intros k x Hk. cbn [final after]. rewrite (Hq k x) by done.
      rewrite flag_shift. case_decide as Hki; [|done].
      subst k. by rewrite leb_S_self.
  - destruct (IH (S i) n w Hrm) as [Hn' Hq].
    split; [done|]. intros k x Hk. rewrite (Hq k x) by done.
    rewrite flag_shift. case_decide as Hki; [|done].
    subst k. by rewrite leb_S_self.
Qed.

(** The entries a sweep leaves, position by position, when the queue fetch
    and the removals go through. *)
Lemma sweep_marks_positions (sub bot : string) (w : world) :
  fails_next ModQueue w = false ->
  Forall (fun f : fault => f = None) (faults w Remove) ->
  out (monitor_modqueue_for_crowd_control sub bot w) = Returns tt
  /\ forall k it,
       modqueue w !! k = Some it ->
       modqueue (final (monitor_modqueue_for_crowd_control sub bot w)) !! k
       = Some (if swept w k it then mark_spam it else it).
Proof.
  intros Hq Hrm.
  unfold monitor_modqueue_for_crowd_control.
  rewrite (bind_run _ _ _ _ _ _ (api_call_ok _ _ Hq)).
  rewrite (bind_run _ _ _ _ _ _ (eq_refl (get _ _))).
  rewrite !after_nil.
  destruct (sweep_loop_run bot (take 25 (modqueue (consume ModQueue w))) 0 0
              (consume ModQueue w) Hrm) as [[n' Hn'] Hk].
  rewrite (bind_returns _ _ _ _ Hn'). cbn [out final after logger_info emit].
  split; [done|]. intros k it Hit.
  rewrite (Hk k it Hit). f_equal.
  rewrite sweep_flags_lookup, Nat.sub_0_r, lookup_take. simpl modqueue.
  unfold swept. cbn [andb Nat.leb].
  case_decide as Hlt.
  - rewrite Hit. replace (k <? 25)%nat with true
      by (symmetry; apply Nat.ltb_lt; lia).
    unfold comments_before. rewrite take_take, Nat.min_l by lia. done.
  - by replace (k <? 25)%nat with false by (symmetry; apply Nat.ltb_ge; lia).
Qed.

(** C6: in a sweep whose queue fetch and removals go through, every entry
    of the queue keeps its place, its kind, its full name and its id, and
    its spam flag afterwards is set exactly when it was set before or the
    entry is among the first 25, is a comment, its log look-up did not
    fail and one of the 10 most recent "removecomment" entries of the log
    targets it with "reddit" as the moderator.  A failed look-up only
    leaves its own entry unmarked, and the sweep returns normally. *)
Theorem sweep_marks_crowd_control (sub bot : string) (w : world) :
  fails_next ModQueue w = false ->
  Forall (fun f : fault => f = None) (faults w Remove) ->
  (forall it,
     crowd_controlled (modlog w) it = true <->
     exists e, In e (recent_removals (modlog w))
               /\ target_fullname e = fullname it /\ mod_name e = "reddit")
  /\ out (monitor_modqueue_for_crowd_control sub bot w) = Returns tt
  /\ forall k it,
       modqueue w !! k = Some it ->
       exists it',
         modqueue (final (monitor_modqueue_for_crowd_control sub bot w)) !! k
         = Some it'
         /\ is_comment it' = is_comment it
         /\ fullname it' = fullname it
         /\ id it' = id it
         /\ spam it' = (spam it || swept w k it).
Proof.
  intros Hq Hrm. split; [intros it; apply crowd_controlled_iff|].
  destruct (sweep_marks_positions sub bot w Hq Hrm) as [Ho Hk].
  split; [done|]. intros k it Hit.
  eexists. split; [apply (Hk k it Hit)|].
  destruct (swept w k it); simpl; repeat split; try done.
  - by rewrite orb_true_r.
  - by rewrite orb_false_r.
Qed.

Lemma sweep_marks_crowd_control_witness :
  fails_next ModQueue busy_queue = false /\
  Forall (fun f : fault => f = None) (faults busy_queue Remove) /\
  out (monitor_modqueue_for_crowd_control "boston" "bostonbot" busy_queue)
  = Returns tt /\
  forall k it,
    modqueue busy_queue !! k = Some it ->
    exists it',
      modqueue (final (monitor_modqueue_for_crowd_control "boston" "bostonbot"
                         busy_queue)) !! k
      = Some it'
      /\ is_comment it' = is_comment it
      /\ fullname it' = fullname it
      /\ id it' = id it
      /\ spam it' = (spam it || swept busy_queue k it).
Proof.
  assert (H : Forall (fun f : fault => f = None) (faults busy_queue Remove))
    by constructor.
  split; [reflexivity | split; [exact H|]].
  exact (proj2 (sweep_marks_crowd_control "boston" "bostonbot" busy_queue
                  eq_refl H)).
Defined.

Example busy_queue_swept :
  map spam
    (modqueue (final (monitor_modqueue_for_crowd_control "boston" "bostonbot"
                        busy_queue)))
  = [true; false; false; false]
  /\ events (monitor_modqueue_for_crowd_control "boston" "bostonbot" busy_queue)
     = [Log INFO "Marking comment aaa as spam due to Reddit Crowd Control.";
        Log WARNING "Error checking modlog for item ddd: 503";
        Log INFO "Total comments flagged as spam this cycle: 1"].
Proof. split; reflexivity. Qed.

(** ** The cycle under the retry wrapper *)

Create HintDb noexit.

Lemma noexit_ret {A} (a : A) : raises_only_exceptions (ret a).
Proof. by intros w code. Qed.

Lemma noexit_exception {A} (c : exn_class) (msg : string) :
  raises_only_exceptions (@raise A (Exception c msg)).
Proof. by intros w code. Qed.

Lemma noexit_emit (ev : event) : raises_only_exceptions (emit ev).
Proof. by intros w code. Qed.

Lemma noexit_get {A} (f : world -> A) : raises_only_exceptions (get f).
Proof. by intros w code. Qed.

Lemma noexit_modify (f : world -> world) : raises_only_exceptions (modify f).
Proof. by intros w code. Qed.

Lemma noexit_api_call (ep : endpoint) : raises_only_exceptions (api_call ep).
Proof.
  intros w code. unfold api_call.
  by destruct (faults w ep) as [|[[c msg]|] l].
Qed.

Lemma noexit_bind {A B} (m : M A) (k : A -> M B) :
  raises_only_exceptions m -> (forall a, raises_only_exceptions (k a)) ->
  raises_only_exceptions (bind m k).
Proof.
  intros Hm Hk w code. unfold bind. specialize (Hm w code).
  destruct (out (m w)) as [a|e] eqn:Ho; simpl; [apply Hk|].
  intros [= ->]. by apply Hm.
Qed.

Lemma noexit_try_except {A} (body : M A) (h : exn -> M A) :
  raises_only_exceptions body -> (forall e, raises_only_exceptions (h e)) ->
  raises_only_exceptions (try_except body h).
Proof.
  intros Hb Hh w code. unfold try_except. specialize (Hb w).
  destruct (out (body w)) as [a|[c msg|code']] eqn:Ho; simpl.
  - by rewrite Ho.
  - apply Hh.
  - by destruct (Hb code').
Qed.

Lemma noexit_try_except_praw {A} (body : M A) (h : exn -> M A) :
  raises_only_exceptions body -> (forall e, raises_only_exceptions (h e)) ->
  raises_only_exceptions (try_except_praw body h).
Proof.
  intros Hb Hh w code. unfold try_except_praw. specialize (Hb w).
  destruct (out (body w)) as [a|[[|] msg|code']] eqn:Ho; simpl.
  - by rewrite Ho.
  - apply Hh.
  - by rewrite Ho.
  - by destruct (Hb code').
Qed.

#[local] Hint Resolve noexit_ret noexit_exception noexit_emit noexit_get
  noexit_modify noexit_api_call : noexit.

Ltac noexit :=
  repeat match goal with
    | |- raises_only_exceptions (bind _ _) => apply noexit_bind; [|intros ?]
    | |- raises_only_exceptions (try_except _ _) =>
        apply noexit_try_except; [|intros ?]
    | |- raises_only_exceptions (try_except_praw _ _) =>
        apply noexit_try_except_praw; [|intros ?]
    | |- raises_only_exceptions (if ?b then _ else _) => destruct b
    | |- raises_only_exceptions (match ?x with _ => _ end) => destruct x
    end;
  eauto with noexit.

Lemma noexit_alerts_loop (min_sev : Z) (alerts : list alert) (text : string) :
  raises_only_exceptions (alerts_loop min_sev alerts text).
Proof.
  revert text. induction alerts as [|a alerts IH]; intros text; simpl; noexit.
Qed.

Lemma noexit_check_loop (m : string) (posts : list post) (i : nat) :
  raises_only_exceptions (check_loop m posts i).
Proof.
  revert i. induction posts as [|p posts IH]; intros i; simpl; noexit.
Qed.

Lemma noexit_post_loop (sub text : string) (posts : list post) (i : nat) :
  raises_only_exceptions (post_loop sub text posts i).
Proof.
  revert i. induction posts as [|p posts IH]; intros i; simpl;
    unfold post_reply, print; noexit.
Qed.

Lemma noexit_sweep_loop (bot : string) (items : list item) (i : nat) (n : Z) :
  raises_only_exceptions (sweep_loop bot items i n).
Proof.
  revert i n. induction items as [|it items IH]; intros i n; simpl;
    unfold is_probably_crowd_control, mod_log, mod_remove_spam,
      logger_info, logger_warning; noexit.
Qed.

#[local] Hint Resolve noexit_alerts_loop noexit_check_loop noexit_post_loop
  noexit_sweep_loop : noexit.

Lemma noexit_main_logic_body (cfg : config) :
  raises_only_exceptions (main_logic_body cfg).
Proof.
  unfold main_logic_body, get_mbta_delays, get_weather, upsert,
    check_comment_in_stickied_thread, post_comment_in_daily_discussion,
    subreddit_hot, comment_edit, monitor_modqueue_for_crowd_control,
    logger_info, logger_error, print.
  noexit.
Qed.

(** Whatever the body of the cycle does, [main_logic] returns: its own
    handler takes every exception the body can raise. *)
Lemma main_logic_returns (cfg : config) (w : world) :
  out (main_logic cfg w) = Returns tt.
Proof.
  unfold main_logic, try_except.
  pose proof (noexit_main_logic_body cfg w) as H.
  destruct (out (main_logic_body cfg w)) as [[]|[c msg|code]] eqn:Ho.
  - done.
  - done.
  - by destruct (H code).
Qed.

(** So the retry wrapper never sees a cycle fail: each turn of the loop
    invokes [main_logic] once and goes to the five-minute sleep. *)
Lemma cycle_runs_once (cfg : config) (w : world) :
  cycle cfg w
  = {| out := Returns tt;
       final := final (main_logic cfg w);
       events := Call :: events (main_logic cfg w) ++ [Sleep 300] |}.
Proof.
  unfold cycle, loop_body, retry_operation.
  change (Z.to_nat max_retries) with (S 99).
  pose proof (retry_loop_returns (main_logic cfg) 99 w tt
                (main_logic_returns cfg w)) as Hr.
  assert (Ho : out (retry_loop (main_logic cfg) 100 w) = Returns tt).
  { rewrite Hr. apply main_logic_returns. }
  rewrite (bind_returns _ _ _ tt) by (by rewrite (try_except_returns _ _ _ _ Ho)).
  rewrite (try_except_returns _ _ _ _ Ho), Hr.
  reflexivity.
Qed.

(** Hence no number of turns of the loop ends the process through the
    retry wrapper. *)
Lemma run_returns (cfg : config) (n : nat) (w : world) :
  out (run cfg n w) = Returns tt.
Proof.
  revert w. induction n as [|n IH]; intros w; [done|].
  cbn [run]. rewrite (bind_returns _ _ _ tt) by (by rewrite cycle_runs_once).
  cbn [out after]. apply IH.
Qed.

(** C2 fails on the code: when the body of the cycle raises, [main_logic]
    logs the error itself and returns, so the retry wrapper sees a
    successful first attempt: the cycle is invoked once, there is no
    "Retrying..." and no 60-second delay, the process does not exit, and
    the loop goes to its five-minute sleep. *)
Theorem cycle_failure_not_retried (cfg : config) (w : world)
    (c : exn_class) (msg : string) :
  out (main_logic_body cfg w) = Raises (Exception c msg) ->
  cycle cfg w
  = {| out := Returns tt;
       final := final (main_logic_body cfg w);
       events :=
         Call :: events (main_logic_body cfg w)
         ++ [Log ERROR ("Unexpected error in main_logic: " +:+ msg);
             Sleep 300] |}.
Proof.
  intros Ho. rewrite cycle_runs_once. unfold main_logic.
  rewrite (try_except_caught _ _ _ _ _ Ho).
  cbn [out final events after logger_error emit].
  by rewrite <- app_assoc.
Qed.

Lemma cycle_failure_not_retried_witness :
  out (main_logic_body sample_config mbta_down)
  = Raises (Exception StdException "Connection refused")
  /\ cycle sample_config mbta_down
     = {| out := Returns tt;
          final := final (main_logic_body sample_config mbta_down);
          events :=
            Call :: events (main_logic_body sample_config mbta_down)
            ++ [Log ERROR ("Unexpected error in main_logic: "
                           +:+ "Connection refused");
                Sleep 300] |}.
Proof.
  split; [reflexivity|].
  exact (cycle_failure_not_retried sample_config mbta_down StdException
           "Connection refused" eq_refl).
Defined.

(** With the transit feed refusing every request, each turn of the loop
    is one attempt, one error line and the five-minute sleep; three turns
    make three attempts, and the process is still running. *)
Example persistent_failure_three_turns :
  run sample_config 3 mbta_down
  = {| out := Returns tt;
       final := consume MbtaGet (consume MbtaGet (consume MbtaGet mbta_down));
       events :=
         [Call; Log INFO "Fetching MBTA delays...";
          Log ERROR "Unexpected error in main_logic: Connection refused";
          Sleep 300;
          Call; Log INFO "Fetching MBTA delays...";
          Log ERROR "Unexpected error in main_logic: Connection refused";
          Sleep 300;
          Call; Log INFO "Fetching MBTA delays...";
          Log ERROR "Unexpected error in main_logic: Connection refused";
          Sleep 300] |}.
Proof. reflexivity. Qed.

(** * Further properties of the code *)

(** ** Retry wrapper: bounds and exits *)

(** X1: with a bound of zero or less the range is empty: the operation is
    never invoked, the closing message is printed and the process exits,
    the world untouched. *)
Theorem retry_operation_no_attempts {A} (operation : M A) (max_retries : Z)
    (w : world) :
  (max_retries <= 0)%Z ->
  retry_operation operation max_retries w
  = {| out := Raises (SystemExit None);
       final := w;
       events := [Print "Max retries reached. Exiting program."] |}.
Proof.
  intros H. unfold retry_operation.
  replace (Z.to_nat max_retries) with 0%nat by lia. reflexivity.
Qed.

Lemma retry_operation_no_attempts_witness :
  (-2 <= 0)%Z /\
  retry_operation ping (-2) reply_flaky
  = {| out := Raises (SystemExit None);
       final := reply_flaky;
       events := [Print "Max retries reached. Exiting program."] |}.
Proof.
  assert (H : (-2 <= 0)%Z) by lia.
  split; [exact H|]. exact (retry_operation_no_attempts ping (-2) reply_flaky H).
Defined.

(** X2: [SystemExit] raised by the operation is not an [Exception]: the
    wrapper lets it through at once, with no message, no delay and no
    further attempt. *)
Theorem retry_operation_exit_passes {A} (operation : M A) (max_retries : Z)
    (w : world) (code : option Z) :
  (1 <= max_retries)%Z ->
  out (operation w) = Raises (SystemExit code) ->
  retry_operation operation max_retries w = after [Call] (operation w).
Proof.
  intros Hmax Hout. unfold retry_operation.
  destruct (Z.to_nat max_retries) as [|n] eqn:Hn; [lia|].
  cbn [retry_loop]. rewrite (bind_run _ _ _ _ _ _ (eq_refl (emit Call w))).
  by rewrite (try_except_exit _ _ _ _ Hout).
Qed.

Lemma retry_operation_exit_passes_witness :
  (1 <= 5)%Z /\
  out (quits calm) = Raises (SystemExit (Some 3%Z)) /\
  retry_operation quits 5 calm = after [Call] (quits calm).
Proof.
  assert (H : (1 <= 5)%Z) by lia.
  split; [exact H | split; [reflexivity|]].
  exact (retry_operation_exit_passes quits 5 calm (Some 3%Z) H eq_refl).
Defined.

Lemma retry_loop_no_exception {A} (operation : M A) (n : nat) (w : world)
    (c : exn_class) (msg : string) :
  out (retry_loop operation n w) <> Raises (Exception c msg).
Proof.
  revert w. induction n as [|n IH]; intros w; [done|].
  cbn [retry_loop]. rewrite (bind_run _ _ _ _ _ _ (eq_refl (emit Call w))).
  cbn [out after]. unfold try_except.
  destruct (out (operation w)) as [a|[c' msg'|code]] eqn:Ho.
  - by rewrite Ho.
  - unfold bind, print, time_sleep, emit. simpl. apply IH.
  - by rewrite Ho.
Qed.

(** X3: no [Exception] ever leaves the retry wrapper: it returns the
    operation's result or ends in [SystemExit].  The handler put around it
    in the main loop (the "Fatal error" branch) therefore never runs: a
    turn of the loop is the wrapper followed by the five-minute sleep. *)
Theorem retry_operation_raises_no_exception (operation : M unit)
    (bound : Z) (w : world) :
  (forall c msg,
     out (retry_operation operation bound w) <> Raises (Exception c msg))
  /\ loop_body operation w
     = (retry_operation operation max_retries ;; time_sleep 300) w.
Proof.
  split; [intros c msg; apply retry_loop_no_exception|].
  unfold loop_body, bind, try_except.
  pose proof (retry_loop_no_exception operation (Z.to_nat max_retries) w) as H.
  unfold retry_operation.
  destruct (out (retry_loop operation (Z.to_nat max_retries) w))
    as [a|[c msg|code]] eqn:Ho; try (by rewrite Ho).
  by destruct (H c msg).
Qed.

(** ** Fetchers: failures and edge cases *)

(** X4: the alert fetcher has no handling of its own.  An answer with a
    status other than 200 becomes the fixed failure text, whatever its
    body; an exception raised by the request itself leaves the function
    as it is. *)
Theorem get_mbta_delays_failures (api_key : string) (min_severity : Z)
    (w : world) :
  (fails_next MbtaGet w = false -> status_code (mbta_api w) <> 200%Z ->
   get_mbta_delays api_key min_severity w
   = {| out := Returns "Failed to fetch data. Please try again later.";
        final := consume MbtaGet w; events := [] |})
  /\ (forall c msg l, faults w MbtaGet = Some (c, msg) :: l ->
      get_mbta_delays api_key min_severity w
      = {| out := Raises (Exception c msg);
           final := consume MbtaGet w; events := [] |}).
Proof.
  split.
  - intros Hok Hs. unfold get_mbta_delays.
    rewrite (bind_run _ _ _ _ _ _ (api_call_ok _ _ Hok)).
    unfold bind, get. simpl.
    destruct (Z.eqb_spec (status_code (mbta_api w)) 200); [done|reflexivity].
  - intros c msg l Hf. unfold get_mbta_delays, bind, api_call.
    by rewrite Hf.
Qed.

Lemma get_mbta_delays_failures_witness :
  (fails_next MbtaGet mbta_500 = false /\
   status_code (mbta_api mbta_500) <> 200%Z /\
   get_mbta_delays "k1" 1 mbta_500
   = {| out := Returns "Failed to fetch data. Please try again later.";
        final := consume MbtaGet mbta_500; events := [] |})
  /\ (faults mbta_down MbtaGet
      = Some (StdException, "Connection refused")
        :: repeat (Some (StdException, "Connection refused")) 199 /\
      get_mbta_delays "k1" 1 mbta_down
      = {| out := Raises (Exception StdException "Connection refused");
           final := consume MbtaGet mbta_down; events := [] |}).
Proof.
  assert (H : status_code (mbta_api mbta_500) <> 200%Z) by discriminate.
  split.
  - split; [reflexivity | split; [exact H|]].
    exact (proj1 (get_mbta_delays_failures "k1" 1 mbta_500) eq_refl H).
  - split; [reflexivity|].
    exact (proj2 (get_mbta_delays_failures "k1" 1 mbta_down) _ _ _ eq_refl).
Defined.

Lemma filterable_qualifies (min_severity : Z) (a : alert) (text : string)
    (rest : list alert) (w : world) :
  filterable min_severity a ->
  alerts_loop min_severity (a :: rest) text w
  = alerts_loop min_severity rest
      (if qualifies min_severity a then text +:+ alert_block a else text) w.
Proof.
  intros (sev & Hsev & Hse). cbn [alerts_loop]. unfold qualifies.
  rewrite Hsev, Z.geb_leb.
  destruct (Z.leb_spec min_severity sev) as [Hle|Hlt].
  - destruct Hse as [?|[se Hse]]; [lia|]. rewrite Hse. simpl.
    by destruct (str_in "change" (lower se)).
  - by destruct (service_effect a).
Qed.

Lemma alerts_loop_filterable (min_severity : Z) (alerts rest : list alert)
    (text : string) (w : world) :
  Forall (filterable min_severity) alerts ->
  alerts_loop min_severity (alerts ++ rest) text w
  = alerts_loop min_severity rest
      (text +:+ blocks (List.filter (qualifies min_severity) alerts)) w.
Proof.
  intros H. revert text.
  induction H as [|a alerts Ha _ IH]; intros text.
  - simpl. f_equal. unfold blocks. simpl.
    induction text as [|c t IHt]; [done|]. rewrite append_cons. by rewrite <- IHt.
  - rewrite <- app_comm_cons, (filterable_qualifies _ _ _ _ _ Ha), IH.
    cbn [List.filter]. destruct (qualifies min_severity a); [|done].
    unfold blocks. simpl. by rewrite append_assoc.
Qed.

(** X5: an alert without severity makes the fetcher raise [TypeError] at
    the comparison, provided the alerts before it could be filtered; the
    text built so far is lost. *)
Theorem get_mbta_delays_missing_severity (api_key : string)
    (min_severity : Z) (w : world) (pre post : list alert) (a : alert) :
  fails_next MbtaGet w = false ->
  status_code (mbta_api w) = 200%Z ->
  json (mbta_api w) = pre ++ a :: post ->
  Forall (filterable min_severity) pre ->
  severity a = None ->
  out (get_mbta_delays api_key min_severity w)
  = Raises (Exception StdException
              "'>=' not supported between instances of 'NoneType' and 'int'").
Proof.
  intros Hok Hs Hj Hpre Ha. unfold get_mbta_delays.
  rewrite (bind_run _ _ _ _ _ _ (api_call_ok _ _ Hok)).
  unfold bind at 1. unfold get. cbn [out final events after].
  change (mbta_api (consume MbtaGet w)) with (mbta_api w).
  rewrite Hs. cbn [Z.eqb Pos.eqb]. rewrite Hj.
  assert (Hloop : forall text w',
            out (alerts_loop min_severity (pre ++ a :: post) text w')
            = Raises (Exception StdException
                "'>=' not supported between instances of 'NoneType' and 'int'")).
  { intros text w'. rewrite alerts_loop_filterable by done.
    cbn [alerts_loop]. by rewrite Ha. }
  destruct pre as [|p pre]; simpl app; cbn [app]; apply Hloop.
Qed.

Lemma get_mbta_delays_missing_severity_witness :
  fails_next MbtaGet (with_alerts [delay_alert; no_severity_alert]) = false /\
  status_code (mbta_api (with_alerts [delay_alert; no_severity_alert])) = 200%Z /\
  json (mbta_api (with_alerts [delay_alert; no_severity_alert]))
  = [delay_alert] ++ no_severity_alert :: [] /\
  Forall (filterable 1) [delay_alert] /\
  severity no_severity_alert = None /\
  out (get_mbta_delays "k1" 1 (with_alerts [delay_alert; no_severity_alert]))
  = Raises (Exception StdException
              "'>=' not supported between instances of 'NoneType' and 'int'").
Proof.
  assert (H : Forall (filterable 1) [delay_alert]).
  { repeat constructor. exists 4%Z. split; [reflexivity|]. right. by eexists. }
  split; [reflexivity | split; [reflexivity | split; [reflexivity|]]].
  split; [exact H | split; [reflexivity|]].
  exact (get_mbta_delays_missing_severity "k1" 1
           (with_alerts [delay_alert; no_severity_alert])
           [delay_alert] [] no_severity_alert eq_refl eq_refl eq_refl H eq_refl).
Defined.

(** X6: the service effect of an alert is read only once its severity has
    reached the threshold: alerts below the threshold may lack it, and the
    text is still the heading and the blocks of the qualifying alerts. *)
Theorem get_mbta_delays_short_circuit (api_key : string) (min_severity : Z)
    (w : world) (a : alert) (rest : list alert) :
  fails_next MbtaGet w = false ->
  status_code (mbta_api w) = 200%Z ->
  json (mbta_api w) = a :: rest ->
  Forall (filterable min_severity) (a :: rest) ->
  out (get_mbta_delays api_key min_severity w)
  = Returns ("# Current delays on the MBTA:" +:+ nl +:+ nl
             +:+ blocks (List.filter (qualifies min_severity) (a :: rest))).
Proof.
  intros Hok Hs Hj Hf. unfold get_mbta_delays.
  rewrite (bind_run _ _ _ _ _ _ (api_call_ok _ _ Hok)).
  unfold bind at 1. unfold get. cbn [out final events after].
  change (mbta_api (consume MbtaGet w)) with (mbta_api w).
  rewrite Hs. cbn [Z.eqb Pos.eqb]. rewrite Hj.
  rewrite <- (app_nil_r (a :: rest)) at 1.
  rewrite alerts_loop_filterable by done.
  cbn [alerts_loop ret out]. by rewrite !append_assoc.
Qed.

Lemma get_mbta_delays_short_circuit_witness :
  fails_next MbtaGet (with_alerts [delay_alert; minor_bare_alert]) = false /\
  status_code (mbta_api (with_alerts [delay_alert; minor_bare_alert])) = 200%Z /\
  json (mbta_api (with_alerts [delay_alert; minor_bare_alert]))
  = delay_alert :: [minor_bare_alert] /\
  Forall (filterable 1) (delay_alert :: [minor_bare_alert]) /\
  out (get_mbta_delays "k1" 1 (with_alerts [delay_alert; minor_bare_alert]))
  = Returns ("# Current delays on the MBTA:" +:+ nl +:+ nl
             +:+ blocks (List.filter (qualifies 1)
                           (delay_alert :: [minor_bare_alert]))).
Proof.
  assert (H : Forall (filterable 1) (delay_alert :: [minor_bare_alert])).
  { repeat constructor.
    - exists 4%Z. split; [reflexivity|]. right. by eexists.
    - exists 0%Z. split; [reflexivity|]. left. lia. }
  split; [reflexivity | split; [reflexivity | split; [reflexivity|]]].
  split; [exact H|].
  exact (get_mbta_delays_short_circuit "k1" 1
           (with_alerts [delay_alert; minor_bare_alert])
           delay_alert [minor_bare_alert] eq_refl eq_refl eq_refl H).
Defined.

(** X7: for a clock hour between 0 and 23 the hour the weather fetcher
    asks for lies between 0 and 20 and is never later than the current
    one (three hours back after 4 o'clock); the answer for that hour
    becomes the formatted text, or the fixed failure text when its status
    is not 200. *)
Theorem get_weather_requested_hour (api_key : string) (w : world) :
  fails_next WeatherGet w = false ->
  (0 <= now_hour w <= 23)%Z ->
  exists h,
    (0 <= h <= 20)%Z /\ (h <= now_hour w)%Z
    /\ (now_hour w - 3 <= h)%Z
    /\ out (get_weather api_key w)
       = Returns (if (status_code (weather_api w h) =? 200)%Z
                  then weather_text (json (weather_api w h))
                  else "Failed to fetch weather data. Please try again later.").
Proof.
  intros Hok Hh.
  exists (if (now_hour w >? 4)%Z then (now_hour w - 3)%Z else now_hour w).
  assert (Hb : let h := if (now_hour w >? 4)%Z then (now_hour w - 3)%Z
                        else now_hour w in
               (0 <= h <= 20)%Z /\ (h <= now_hour w)%Z /\ (now_hour w - 3 <= h)%Z).
  { simpl. destruct (Z.gtb_spec (now_hour w) 4); lia. }
  destruct Hb as (H1 & H2 & H3). do 3 (split; [done|]).
  unfold get_weather.
  rewrite (bind_run _ _ _ _ _ _ (eq_refl (get now_hour w))).
  rewrite (bind_run _ _ _ _ _ _ (api_call_ok _ _ Hok)).
  unfold bind, get. cbn [out final events after consume weather_api set_faults].
  by destruct (status_code _ =? 200)%Z.
Qed.

Lemma get_weather_requested_hour_witness :
  fails_next WeatherGet calm = false /\
  (0 <= now_hour calm <= 23)%Z /\
  exists h,
    (0 <= h <= 20)%Z /\ (h <= now_hour calm)%Z
    /\ (now_hour calm - 3 <= h)%Z
    /\ out (get_weather "k2" calm)
       = Returns (if (status_code (weather_api calm h) =? 200)%Z
                  then weather_text (json (weather_api calm h))
                  else "Failed to fetch weather data. Please try again later.").
Proof.
  assert (H : (0 <= now_hour calm <= 23)%Z) by (simpl; lia).
  split; [reflexivity | split; [exact H|]].
  exact (get_weather_requested_hour "k2" calm eq_refl H).
Defined.

(** ** Posting and finding the status comment *)

Lemma post_loop_effect (sub text : string) (posts : list post) (i : nat)
    (w : world) :
  hot (final (post_loop sub text posts i w)) = hot w
  \/ exists b t r,
       posts = b ++ t :: r
       /\ Forall (fun p => is_weekly_sticky p = false) b
       /\ is_weekly_sticky t = true
       /\ hot (final (post_loop sub text posts i w))
          = alter (add_comment text) (i + length b)%nat (hot w).
Proof.
  revert i w. induction posts as [|p posts IH]; intros i w; [by left|].
  cbn [post_loop]. destruct (is_weekly_sticky p) eqn:Hp.
  - unfold post_reply, bind, api_call.
    destruct (faults w Reply) as [|[[c msg]|] l]; simpl;
      try (by left);
      right; exists [], p, posts; rewrite Nat.add_0_r; by repeat split.
  - destruct (IH (S i) w) as [?|(b & t & r & -> & Hb & Ht & Hh)]; [by left|].
    right. exists (p :: b), t, r. repeat split; try done.
    + by constructor.
    + rewrite Hh. simpl. by rewrite Nat.add_succ_r.
Qed.

Lemma final_bind_quiet {A B} (m : M A) (k : A -> M B) (w : world) :
  (forall a w', final (k a w') = w') -> final (bind m k w) = final (m w).
Proof.
  intros H. unfold bind. destruct (out (m w)); simpl; [apply H | done].
Qed.

Lemma take_split_listing {X} (n : nat) (l b r : list X) (t : X) :
  take n l = b ++ t :: r ->
  l = b ++ t :: (r ++ drop n l) /\ (length b < n)%nat.
Proof.
  intros H. split.
  - rewrite <- (take_drop n l) at 1. rewrite H, <- app_assoc. done.
  - assert (Hl : length (take n l) = length (b ++ t :: r)) by (by rewrite H).
    rewrite length_take, length_app in Hl. simpl in Hl. lia.
Qed.

(** X8: posting never raises, whatever remote call fails; and it either
    leaves the listing as it was or adds the text as one comment, at the
    end of the first pinned weekly thread among the ten hottest posts. *)
Theorem post_comment_effect (sub text : string) (w : world) :
  out (post_comment_in_daily_discussion sub text w) = Returns tt
  /\ (hot (final (post_comment_in_daily_discussion sub text w)) = hot w
      \/ exists before thread rest,
           hot w = before ++ thread :: rest
           /\ (length before < 10)%nat
           /\ Forall (fun p => is_weekly_sticky p = false) before
           /\ is_weekly_sticky thread = true
           /\ hot (final (post_comment_in_daily_discussion sub text w))
              = before ++ add_comment text thread :: rest).
Proof.
  split.
  - assert (Hne : raises_only_exceptions
                    (hot_posts <- subreddit_hot (Some 10%nat) ;;
                     found <- post_loop sub text hot_posts 0 ;;
                     if negb found
                     then print ("No suitable sticky post found in " +:+ sub
                                 +:+ ". Comment not posted.")
                     else ret tt)).
    { unfold subreddit_hot, print. noexit. }
    unfold post_comment_in_daily_discussion, try_except.
    specialize (Hne w).
    destruct (out (_ w)) as [[]|[c msg|code]] eqn:Ho; try done.
    by destruct (Hne code).
  - unfold post_comment_in_daily_discussion.
    set (body := bind _ _).
    assert (Hf : hot (final (try_except body
                   (fun e => print ("Error occurred: " +:+ str_of_exn e)) w))
                 = hot (final (body w))).
    { unfold try_except. by destruct (out (body w)) as [a|[c msg|code]]. }
    rewrite Hf. subst body.
    destruct (fails_next HotListing w) eqn:Hfn.
    + destruct (api_call_fails _ _ Hfn) as (c & msg & Hc). left.
      unfold subreddit_hot. rewrite !bind_assoc. unfold bind at 1.
      by rewrite Hc.
    + rewrite (bind_run _ _ _ _ _ _ (subreddit_hot_ok _ _ Hfn)), after_nil.
      rewrite final_bind_quiet by (by intros [|] w').
      destruct (post_loop_effect sub text (take 10 (hot w)) 0
                  (consume HotListing w))
        as [Hh|(b & t & r & Ht & Hb & Hs & Hh)]; [by left|].
      right. destruct (take_split_listing _ _ _ _ _ Ht) as [Hw Hlen].
      exists b, t, (r ++ drop 10 (hot w)). repeat split; try done.
      rewrite Hh. simpl. rewrite Hw at 1. by rewrite alter_thread.
Qed.

Example post_comment_reply_refused :
  post_comment_in_daily_discussion "boston" "text" reply_refused
  = {| out := Returns tt;
       final := consume Reply (consume HotListing reply_refused);
       events := [Print "Error occurred: 403"] |}
  /\ hot (consume Reply (consume HotListing reply_refused))
     = hot reply_refused.
Proof. split; reflexivity. Qed.

Lemma find_marked_some (m : string) (cs : list comment) (j0 j : nat) :
  find_marked m cs j0 = Some j ->
  (j0 <= j)%nat
  /\ exists c, cs !! (j - j0)%nat = Some c /\ str_in m (body c) = true
     /\ forall j' c', (j' < j - j0)%nat -> cs !! j' = Some c' ->
          str_in m (body c') = false.
Proof.
  revert j0. induction cs as [|c cs IH]; intros j0 H; [done|].
  cbn [find_marked] in H. destruct (str_in m (body c)) eqn:Hc.
  - injection H as <-. split; [lia|]. rewrite Nat.sub_diag.
    exists c. repeat split; [done|]. intros j' c' Hj'. lia.
  - destruct (IH _ H) as (Hle & c0 & Hl & Hm & Hfirst).
    split; [lia|]. exists c0.
    replace (j - j0)%nat with (S (j - S j0)) by lia.
    repeat split; [done..|].
    intros [|j'] c' Hj' Hc'; [by injection Hc' as <-|].
    apply (Hfirst j' c'); [lia | done].
Qed.

Lemma find_marked_none_all (m : string) (cs : list comment) (j0 : nat) :
  find_marked m cs j0 = None ->
  forall c, In c cs -> str_in m (body c) = false.
Proof.
  revert j0. induction cs as [|c cs IH]; intros j0 H c' Hin; [done|].
  cbn [find_marked] in H. destruct (str_in m (body c)) eqn:Hc; [done|].
  destruct Hin as [<-|Hin]; [done|]. by apply (IH _ H).
Qed.

Lemma check_loop_effect (m : string) (posts : list post) (i : nat)
    (w : world) :
  hot (final (check_loop m posts i w)) = hot w
  /\ (forall k j,
        out (check_loop m posts i w) = Returns (Some (k, j)) ->
        (i <= k)%nat
        /\ exists p c,
             posts !! (k - i)%nat = Some p /\ is_weekly_sticky p = true
             /\ comments p !! j = Some c /\ str_in m (body c) = true
             /\ (forall j' c', (j' < j)%nat -> comments p !! j' = Some c' ->
                   str_in m (body c') = false)
             /\ (forall k' p' c', (k' < k - i)%nat -> posts !! k' = Some p' ->
                   is_weekly_sticky p' = true -> In c' (comments p') ->
                   str_in m (body c') = false))
  /\ (out (check_loop m posts i w) = Returns None ->
      forall p c, In p posts -> is_weekly_sticky p = true ->
        In c (comments p) -> str_in m (body c) = false).
Proof.
  revert i w. induction posts as [|p posts IH]; intros i w.
  { repeat split; try done. }
  cbn [check_loop]. destruct (is_weekly_sticky p) eqn:Hp.
  - assert (Hgo : forall w1, hot w1 = hot w ->
      let r := after [] (match find_marked m (comments p) 0 with
                         | Some j => ret (Some (i, j))
                         | None => check_loop m posts (S i)
                         end w1) in
      hot (final r) = hot w
      /\ (forall k j, out r = Returns (Some (k, j)) ->
            (i <= k)%nat
            /\ exists p0 c,
                 (p :: posts) !! (k - i)%nat = Some p0
                 /\ is_weekly_sticky p0 = true
                 /\ comments p0 !! j = Some c /\ str_in m (body c) = true
                 /\ (forall j' c', (j' < j)%nat -> comments p0 !! j' = Some c' ->
                       str_in m (body c') = false)
                 /\ (forall k' p' c', (k' < k - i)%nat ->
                       (p :: posts) !! k' = Some p' ->
                       is_weekly_sticky p' = true -> In c' (comments p') ->
                       str_in m (body c') = false))
      /\ (out r = Returns None ->
          forall p0 c, In p0 (p :: posts) -> is_weekly_sticky p0 = true ->
            In c (comments p0) -> str_in m (body c) = false)).
    { intros w1 Hw1. cbn zeta. rewrite after_nil.
      destruct (find_marked m (comments p) 0) as [j|] eqn:Hfind.
      - split; [done|]. split; [|done].
        intros k j' [= <- <-]. split; [lia|]. rewrite Nat.sub_diag.
        destruct (find_marked_some _ _ _ _ Hfind) as (_ & c & Hl & Hm & Hfirst).
        rewrite Nat.sub_0_r in *. exists p, c.
        repeat split; try done. intros k' p' c' Hk'. lia.
      - destruct (IH (S i) w1) as (Hh & Hsome & Hnone).
        split; [by rewrite Hh|]. split.
        + intros k j Hout.
          destruct (Hsome k j Hout) as (Hle & p0 & c & Hl & Hs & Hc & Hm & Hj & Hk).
          split; [lia|]. exists p0, c.
          replace (k - i)%nat with (S (k - S i)) by lia.
          repeat split; try done.
          intros [|k'] p' c' Hk' Hp' Hsp Hin.
          * injection Hp' as <-. by apply (find_marked_none_all _ _ _ Hfind).
          * apply (Hk k' p' c'); [lia | done..].
        + intros Hout p0 c [<-|Hin] Hs Hc.
          * by apply (find_marked_none_all _ _ _ Hfind).
          * by apply (Hnone Hout p0 c). }
    destruct (fails_next ReplaceMore w) eqn:Hfn.
    + destruct (api_call_fails _ _ Hfn) as (c & msg & Hc).
      rewrite (bind_raises _ _ _ (Exception c msg)) by (by rewrite Hc).
      rewrite Hc. cbn [out final]. repeat split; done.
    + rewrite (bind_run _ _ _ _ _ _ (api_call_ok _ _ Hfn)). by apply Hgo.
  - destruct (IH (S i) w) as (Hh & Hsome & Hnone).
    split; [done|]. split.
    + intros k j Hout.
      destruct (Hsome k j Hout) as (Hle & p0 & c & Hl & Hs & Hc & Hm & Hj & Hk).
      split; [lia|]. exists p0, c.
      replace (k - i)%nat with (S (k - S i)) by lia.
      repeat split; try done.
      intros [|k'] p' c' Hk' Hp' Hsp Hin.
      * injection Hp' as <-. congruence.
      * apply (Hk k' p' c'); [lia | done..].
    + intros Hout p0 c [<-|Hin] Hs Hc; [congruence|].
      by apply (Hnone Hout p0 c).
Qed.

(** X9: looking for the status comment changes nothing on the platform.
    When it answers with a comment, that comment sits in a pinned weekly
    thread, carries the marker, and is the first such comment of the
    first such thread of the whole listing; when it answers [None], no
    comment of any pinned weekly thread carries the marker. *)
Theorem check_comment_finds_first (sub m : string) (w : world) :
  hot (final (check_comment_in_stickied_thread sub m w)) = hot w
  /\ (forall i j,
        out (check_comment_in_stickied_thread sub m w) = Returns (Some (i, j)) ->
        exists p c,
          hot w !! i = Some p /\ is_weekly_sticky p = true
          /\ comments p !! j = Some c /\ str_in m (body c) = true
          /\ (forall j' c', (j' < j)%nat -> comments p !! j' = Some c' ->
                str_in m (body c') = false)
          /\ (forall i' p' c', (i' < i)%nat -> hot w !! i' = Some p' ->
                is_weekly_sticky p' = true -> In c' (comments p') ->
                str_in m (body c') = false))
  /\ (out (check_comment_in_stickied_thread sub m w) = Returns None ->
      forall p c, In p (hot w) -> is_weekly_sticky p = true ->
        In c (comments p) -> str_in m (body c) = false).
Proof.
  unfold check_comment_in_stickied_thread.
  destruct (fails_next HotListing w) eqn:Hfn.
  - destruct (api_call_fails _ _ Hfn) as (c & msg & Hc).
    assert (Hr : out (subreddit_hot None w) = Raises (Exception c msg)
                 /\ final (subreddit_hot None w) = consume HotListing w).
    { unfold subreddit_hot, bind. by rewrite Hc. }
    destruct Hr as [Ho Hfin]. rewrite (bind_raises _ _ _ _ Ho).
    cbn [out final]. rewrite Hfin. repeat split; done.
  - rewrite (bind_run _ _ _ _ _ _ (subreddit_hot_ok _ _ Hfn)), after_nil.
    destruct (check_loop_effect m (hot w) 0 (consume HotListing w))
      as (Hh & Hsome & Hnone).
    split; [done|]. split; [|done].
    intros i j Hout.
    destruct (Hsome i j Hout) as (_ & p & c & Hl & Hs & Hc & Hm & Hj & Hk).
    rewrite Nat.sub_0_r in *. exists p, c. repeat split; done.
Qed.

Lemma check_comment_finds_first_witness :
  out (check_comment_in_stickied_thread "boston" marker with_status)
  = Returns (Some (1%nat, 1%nat))
  /\ exists p c,
       hot with_status !! 1%nat = Some p /\ is_weekly_sticky p = true
       /\ comments p !! 1%nat = Some c /\ str_in marker (body c) = true
       /\ (forall j' c', (j' < 1)%nat -> comments p !! j' = Some c' ->
             str_in marker (body c') = false)
       /\ (forall i' p' c', (i' < 1)%nat -> hot with_status !! i' = Some p' ->
             is_weekly_sticky p' = true -> In c' (comments p') ->
             str_in marker (body c') = false).
Proof.
  split; [reflexivity|].
  exact (proj1 (proj2 (check_comment_finds_first "boston" marker with_status))
           1%nat 1%nat eq_refl).
Defined.

(** ** Upsert: duplicates and edit errors *)

Lemma total_comments_set_body (j i : nat) (text : string) (h : list post) :
  total_comments (alter (set_body j text) i h) = total_comments h.
Proof.
  unfold total_comments. revert i.
  induction h as [|p h IH]; intros [|i]; simpl; try done.
  - by rewrite !length_app, length_insert.
  - rewrite !length_app. f_equal. apply IH.
Qed.

Lemma status_comments_none (h : list post) :
  (forall p c, In p h -> is_weekly_sticky p = true -> In c (comments p) ->
     str_in marker (body c) = false) ->
  status_comments h = [].
Proof.
  induction h as [|p h IH]; intros H; [done|].
  change (p :: h) with ([p] ++ h). rewrite status_comments_app.
  rewrite IH by (intros p' c Hp; apply H; by right).
  rewrite app_nil_r. unfold status_comments. simpl. rewrite app_nil_r.
  destruct (is_weekly_sticky p) eqn:Hp; [|done].
  assert (Hc : forall c, In c (comments p) -> is_marked c = false).
  { intros c Hc. apply (H p c); [by left | done..]. }
  induction (comments p) as [|c cs IHc]; [done|].
  simpl. rewrite (Hc c) by (by left). apply IHc.
  intros c' Hc'. apply Hc. by right.
Qed.

Lemma check_comment_effect (sub : string) (w : world) :
  hot (final (check_comment_in_stickied_thread sub marker w)) = hot w
  /\ (out (check_comment_in_stickied_thread sub marker w) = Returns None ->
      status_comments (hot w) = []).
Proof.
  unfold check_comment_in_stickied_thread.
  destruct (fails_next HotListing w) eqn:Hfn.
  - destruct (api_call_fails _ _ Hfn) as (c & msg & Hc).
    assert (Hr : out (subreddit_hot None w) = Raises (Exception c msg)
                 /\ final (subreddit_hot None w) = consume HotListing w).
    { unfold subreddit_hot, bind. by rewrite Hc. }
    destruct Hr as [Ho Hfin]. rewrite (bind_raises _ _ _ _ Ho).
    cbn [out final]. rewrite Hfin. by split.
  - rewrite (bind_run _ _ _ _ _ _ (subreddit_hot_ok _ _ Hfn)), after_nil.
    destruct (check_loop_effect marker (hot w) 0 (consume HotListing w))
      as (Hh & _ & Hnone).
    split; [done|]. intros Hout. by apply status_comments_none, Hnone.
Qed.

(** X10: once a status comment exists in a pinned weekly thread, an
    upsert never adds a comment, whichever remote calls fail: the listing
    keeps its number of comments. *)
Theorem upsert_never_duplicates (cfg : config) (text : string) (w : world) :
  status_comments (hot w) <> [] ->
  total_comments (hot (final (upsert cfg text w))) = total_comments (hot w).
Proof.
  intros Hs. unfold upsert.
  rewrite (bind_run _ _ _ _ _ _ (eq_refl (logger_info _ w))). cbn [final after].
  destruct (check_comment_effect (subreddit_name cfg) w) as [Hh Hnone].
  destruct (out (check_comment_in_stickied_thread (subreddit_name cfg) marker w))
    as [[h|]|e] eqn:Ho.
  - rewrite (bind_returns _ _ _ _ Ho). cbn [final after].
    rewrite <- Hh.
    apply (keeps_try_except_praw
             (fun a b => total_comments b = total_comments a)).
    + intros a b c Hab Hbc. by rewrite Hbc.
    + apply keeps_bind; [by intros ??; etransitivity | apply keeps_emit; done|].
      intros _. apply keeps_bind; [by intros ??; etransitivity| |].
      * unfold comment_edit. apply keeps_bind; [by intros ??; etransitivity| |].
        -- by apply keeps_api_call.
        -- intros _. apply keeps_modify. intros w'. simpl.
           apply total_comments_set_body.
      * intros _. by apply keeps_emit.
    + intros e. by apply keeps_emit.
  - by destruct Hs; apply Hnone.
  - rewrite (bind_raises _ _ _ _ Ho). cbn [final]. by rewrite Hh.
Qed.

Lemma upsert_never_duplicates_witness :
  status_comments (hot (edit_refused StdException)) <> [] /\
  total_comments (hot (final (upsert sample_config "text"
                                (edit_refused StdException))))
  = total_comments (hot (edit_refused StdException)).
Proof.
  assert (H : status_comments (hot (edit_refused StdException)) <> [])
    by discriminate.
  split; [exact H|].
  exact (upsert_never_duplicates sample_config "text"
           (edit_refused StdException) H).
Defined.

Lemma check_loop_found_ok (before rest : list post) (thread : post)
    (i j : nat) (w : world) :
  fails_next ReplaceMore w = false ->
  Forall (fun p => is_weekly_sticky p = false) before ->
  is_weekly_sticky thread = true ->
  find_marked marker (comments thread) 0 = Some j ->
  check_loop marker (before ++ thread :: rest) i w
  = {| out := Returns (Some ((i + length before)%nat, j));
       final := consume ReplaceMore w;
       events := [] |}.
Proof.
  intros Hr Hb Ht Hj. revert i.
  induction Hb as [|p before Hp _ IH]; intros i; simpl.
  - rewrite Ht. rewrite (bind_run _ _ _ _ _ _ (api_call_ok _ _ Hr)).
    rewrite after_nil, Hj. unfold ret. by rewrite Nat.add_0_r.
  - rewrite Hp, IH. by rewrite Nat.add_succ_r.
Qed.

(** X11: when the status comment is found and the platform refuses the
    edit, nothing changes on the listing; a [PRAWException] is logged and
    the upsert returns, any other exception leaves the upsert. *)
Theorem upsert_edit_refused (cfg : config) (text : string) (w : world)
    (before rest : list post) (thread : post) (j : nat)
    (cls : exn_class) (msg : string) (l : list fault) :
  fails_next HotListing w = false ->
  fails_next ReplaceMore w = false ->
  faults w Edit = Some (cls, msg) :: l ->
  hot w = before ++ thread :: rest ->
  Forall (fun p => is_weekly_sticky p = false) before ->
  is_weekly_sticky thread = true ->
  find_marked marker (comments thread) 0 = Some j ->
  hot (final (upsert cfg text w)) = hot w
  /\ out (upsert cfg text w)
     = match cls with
       | PRAWException => Returns tt
       | StdException => Raises (Exception StdException msg)
       end
  /\ events (upsert cfg text w)
     = [Log INFO "Checking for existing comment...";
        Log INFO "Editing existing comment..."]
       ++ match cls with
          | PRAWException =>
              [Log ERROR ("Error posting/editing comment: " +:+ msg)]
          | StdException => []
          end.
Proof.
  intros Hhot Hrm Hedit Hh Hb Ht Hj.
  unfold upsert, check_comment_in_stickied_thread.
  rewrite (bind_run _ _ _ _ _ _ (eq_refl (logger_info _ w))).
  rewrite bind_assoc.
  rewrite (bind_run _ _ _ _ _ _ (subreddit_hot_ok None _ Hhot)).
  rewrite after_nil, Hh.
  rewrite (bind_run _ _ _ _ _ _
             (check_loop_found_ok before rest thread 0 j
                (consume HotListing w) Hrm Hb Ht Hj)).
  unfold try_except_praw, comment_edit, bind, api_call.
  cbn [logger_info emit out final events after consume set_faults faults
       endpoint_eqb].
  rewrite Hedit. destruct cls; cbn; by rewrite Hh.
Qed.

Lemma upsert_edit_refused_witness :
  fails_next HotListing (edit_refused PRAWException) = false /\
  fails_next ReplaceMore (edit_refused PRAWException) = false /\
  faults (edit_refused PRAWException) Edit
  = Some (PRAWException, "RATELIMIT") :: [] /\
  hot (edit_refused PRAWException)
  = [rules_post] ++ status_thread :: [sunset_post] /\
  Forall (fun p => is_weekly_sticky p = false) [rules_post] /\
  is_weekly_sticky status_thread = true /\
  find_marked marker (comments status_thread) 0 = Some 1%nat /\
  hot (final (upsert sample_config "text" (edit_refused PRAWException)))
  = hot (edit_refused PRAWException)
  /\ out (upsert sample_config "text" (edit_refused PRAWException))
     = Returns tt
  /\ events (upsert sample_config "text" (edit_refused PRAWException))
     = [Log INFO "Checking for existing comment...";
        Log INFO "Editing existing comment..."]
       ++ [Log ERROR ("Error posting/editing comment: " +:+ "RATELIMIT")].
Proof.
  assert (Hb : Forall (fun p => is_weekly_sticky p = false) [rules_post])
    by (repeat constructor).
  do 7 (split; [first [reflexivity | exact Hb]|]).
  exact (upsert_edit_refused sample_config "text" (edit_refused PRAWException)
           [rules_post] [sunset_post] status_thread 1 PRAWException
           "RATELIMIT" [] eq_refl eq_refl eq_refl eq_refl Hb eq_refl eq_refl).
Defined.

Example upsert_edit_other_error :
  out (upsert sample_config "text" (edit_refused StdException))
  = Raises (Exception StdException "RATELIMIT")
  /\ events (main_logic sample_config (edit_refused StdException))
     = [Log INFO "Fetching MBTA delays...";
        Log INFO "Fetching weather forecast...";
        Log INFO "Checking for existing comment...";
        Log INFO "Editing existing comment...";
        Log ERROR "Unexpected error in main_logic: RATELIMIT"].
Proof. split; reflexivity. Qed.

(** ** Moderation sweep: refused removals, marks and the count *)

Lemma marks_only_refl (q : list item) : marks_only q q.
Proof. induction q; constructor; auto. Qed.

Lemma marks_only_trans (a b c : list item) :
  marks_only a b -> marks_only b c -> marks_only a c.
Proof.
  intros Hab. revert c. induction Hab as [|x y a b Hxy _ IH]; intros c Hbc;
    inversion Hbc as [|y' z b' c' Hyz Hbc']; subst; constructor; [|by apply IH].
  destruct Hxy as [->| ->], Hyz as [->| ->]; auto.
Qed.

Lemma marks_only_alter (i : nat) (q : list item) :
  marks_only q (alter mark_spam i q).
Proof.
  apply Forall2_alter_r; [apply marks_only_refl|].
  intros x y _ _ [->| ->]; auto.
Qed.

Lemma sweep_loop_marks_only (bot : string) (items : list item) (i : nat)
    (n : Z) (w : world) :
  marks_only (modqueue w) (modqueue (final (sweep_loop bot items i n w))).
Proof.
  revert i n w. induction items as [|it items IH]; intros i n w;
    [apply marks_only_refl|].
  cbn [sweep_loop]. destruct (is_comment it); [|apply IH].
  destruct (is_probably_crowd_control_run it bot w) as (evs & Hrun).
  rewrite (bind_run _ _ _ _ _ _ Hrun). cbn [final after].
  destruct (negb _ && _); [|apply (IH (S i) n (consume ModLog w))].
  rewrite (bind_run _ _ _ _ _ _ (eq_refl (logger_info _ _))). cbn [final after].
  unfold mod_remove_spam. rewrite !bind_assoc.
  destruct (fails_next Remove (consume ModLog w)) eqn:Hfn.
  - destruct (api_call_fails _ _ Hfn) as (c & msg & Hc).
    rewrite (bind_raises _ _ _ (Exception c msg)) by (by rewrite Hc).
    rewrite Hc. apply marks_only_refl.
  - rewrite (bind_run _ _ _ _ _ _ (api_call_ok _ _ Hfn)).
    rewrite (bind_run _ _ _ _ _ _ (eq_refl (modify _ _))). cbn [final after].
    eapply marks_only_trans; [|apply IH]. apply marks_only_alter.
Qed.

(** X12: whatever fails, a sweep changes nothing but spam marks: the
    queue keeps its entries in place, each as it was or marked as spam,
    and the discussion threads are not touched. *)
Theorem sweep_only_marks (sub bot : string) (w : world) :
  marks_only (modqueue w)
    (modqueue (final (monitor_modqueue_for_crowd_control sub bot w)))
  /\ length (modqueue (final (monitor_modqueue_for_crowd_control sub bot w)))
     = length (modqueue w)
  /\ hot (final (monitor_modqueue_for_crowd_control sub bot w)) = hot w.
Proof.
  assert (Hm : marks_only (modqueue w)
                 (modqueue (final (monitor_modqueue_for_crowd_control sub bot w)))).
  { unfold monitor_modqueue_for_crowd_control.
    destruct (fails_next ModQueue w) eqn:Hfn.
    - destruct (api_call_fails _ _ Hfn) as (c & msg & Hc).
      rewrite (bind_raises _ _ _ (Exception c msg)) by (by rewrite Hc).
      rewrite Hc. apply marks_only_refl.
    - rewrite (bind_run _ _ _ _ _ _ (api_call_ok _ _ Hfn)).
      rewrite (bind_run _ _ _ _ _ _ (eq_refl (get _ _))). cbn [final after].
      rewrite final_bind_quiet by done.
      apply (sweep_loop_marks_only bot _ 0 0 (consume ModQueue w)). }
  split; [done|]. split.
  - symmetry. apply (Forall2_length _ _ _ Hm).
  - symmetry. apply (keeps_monitor eq); [done | by intros ??? -> ->].
Qed.

Lemma sweep_loop_refused (bot : string) (items : list item) (i : nat)
    (n : Z) (w : world) (c : exn_class) (msg : string) (l : list fault) :
  faults w Remove = Some (c, msg) :: l ->
  modqueue (final (sweep_loop bot items i n w)) = modqueue w
  /\ (In true (sweep_flags (faults w ModLog) (modlog w) items) ->
      out (sweep_loop bot items i n w) = Raises (Exception c msg)).
Proof.
  revert i n w. induction items as [|it items IH]; intros i n w Hf;
    [by split|].
  cbn [sweep_loop sweep_flags]. destruct (is_comment it).
  - destruct (is_probably_crowd_control_run it bot w) as (evs & Hrun).
    rewrite (bind_run _ _ _ _ _ _ Hrun). cbn [final out after].
    destruct (negb _ && _).
    + rewrite (bind_run _ _ _ _ _ _ (eq_refl (logger_info _ _))).
      cbn [final out after].
      unfold mod_remove_spam, bind, api_call.
      cbn [consume set_faults faults endpoint_eqb]. rewrite Hf. by split.
    + destruct (IH (S i) n (consume ModLog w) Hf) as [Hq Hraise].
      split; [done|]. intros [?|Hin]; [done|]. by apply Hraise.
  - destruct (IH (S i) n w Hf) as [Hq Hraise].
    split; [done|]. intros [?|Hin]; [done|]. by apply Hraise.
Qed.

Lemma swept_flag (w : world) (k : nat) (it : item) :
  modqueue w !! k = Some it ->
  default false
    (sweep_flags (faults w ModLog) (modlog w) (take 25 (modqueue w)) !! k)
  = swept w k it.
Proof.
  intros Hit. rewrite sweep_flags_lookup, lookup_take. unfold swept.
  case_decide as Hlt.
  - rewrite Hit. replace (k <? 25)%nat with true
      by (symmetry; apply Nat.ltb_lt; lia).
    unfold comments_before. by rewrite take_take, Nat.min_l by lia.
  - by replace (k <? 25)%nat with false by (symmetry; apply Nat.ltb_ge; lia).
Qed.

(** X13: the removal itself is not guarded.  When the platform refuses
    the first removal of a sweep that has an entry to mark, the exception
    leaves the sweep and no entry of the queue is marked, not even the
    ones that come later. *)
Theorem sweep_aborts_on_refused_removal (sub bot : string) (w : world)
    (c : exn_class) (msg : string) (l : list fault) (k : nat) (it : item) :
  fails_next ModQueue w = false ->
  faults w Remove = Some (c, msg) :: l ->
  modqueue w !! k = Some it ->
  swept w k it = true ->
  out (monitor_modqueue_for_crowd_control sub bot w)
  = Raises (Exception c msg)
  /\ modqueue (final (monitor_modqueue_for_crowd_control sub bot w))
     = modqueue w.
Proof.
  intros Hq Hf Hit Hs. unfold monitor_modqueue_for_crowd_control.
  rewrite (bind_run _ _ _ _ _ _ (api_call_ok _ _ Hq)).
  rewrite (bind_run _ _ _ _ _ _ (eq_refl (get _ _))). rewrite !after_nil.
  destruct (sweep_loop_refused bot (take 25 (modqueue (consume ModQueue w)))
              0 0 (consume ModQueue w) c msg l Hf) as [Hsame Hraise].
  assert (Hin : In true (sweep_flags (faults (consume ModQueue w) ModLog)
                           (modlog (consume ModQueue w))
                           (take 25 (modqueue (consume ModQueue w))))).
  { pose proof (swept_flag w k it Hit) as Hfl. rewrite Hs in Hfl.
    change (faults (consume ModQueue w) ModLog) with (faults w ModLog).
    change (modlog (consume ModQueue w)) with (modlog w).
    change (modqueue (consume ModQueue w)) with (modqueue w).
    destruct (sweep_flags _ _ _ !! k) as [b|] eqn:Hk; [|done].
    simpl in Hfl. subst b. apply list_elem_of_In.
    by apply list_elem_of_lookup_2 in Hk. }
  rewrite (bind_raises _ _ _ _ (Hraise Hin)). by split.
Qed.

Lemma sweep_aborts_on_refused_removal_witness :
  fails_next ModQueue remove_refused = false /\
  faults remove_refused Remove = Some (StdException, "403") :: [] /\
  modqueue remove_refused !! 0%nat
  = Some {| is_comment := true; fullname := "t1_aaa"; id := "aaa";
            spam := false |} /\
  swept remove_refused 0
    {| is_comment := true; fullname := "t1_aaa"; id := "aaa"; spam := false |}
  = true /\
  out (monitor_modqueue_for_crowd_control "boston" "bostonbot" remove_refused)
  = Raises (Exception StdException "403")
  /\ modqueue (final (monitor_modqueue_for_crowd_control "boston" "bostonbot"
                        remove_refused))
     = modqueue remove_refused.
Proof.
  do 4 (split; [reflexivity|]).
  exact (sweep_aborts_on_refused_removal "boston" "bostonbot" remove_refused
           StdException "403" [] 0
           {| is_comment := true; fullname := "t1_aaa"; id := "aaa";
              spam := false |} eq_refl eq_refl eq_refl eq_refl).
Defined.

Lemma sweep_loop_count (bot : string) (items : list item) (i : nat) (n : Z)
    (w : world) :
  Forall (fun f : fault => f = None) (faults w Remove) ->
  out (sweep_loop bot items i n w)
  = Returns (n + Z.of_nat (length (List.filter (fun b : bool => b)
               (sweep_flags (faults w ModLog) (modlog w) items))))%Z.
Proof.
  revert i n w. induction items as [|it items IH]; intros i n w Hrm.
  { simpl. by rewrite Z.add_0_r. }
  cbn [sweep_loop sweep_flags]. destruct (is_comment it).
  - destruct (is_probably_crowd_control_run it bot w) as (evs & Hrun).
    rewrite (bind_run _ _ _ _ _ _ Hrun). cbn [out after].
    destruct (negb _ && _).
    + rewrite (bind_run _ _ _ _ _ _ (eq_refl (logger_info _ _))).
      unfold mod_remove_spam. rewrite !bind_assoc.
      assert (Hok : fails_next Remove (consume ModLog w) = false).
      { unfold fails_next. simpl. destruct (faults w Remove) as [|[f|] l];
          [done| |done]. by inversion Hrm. }
      rewrite (bind_run _ _ _ _ _ _ (api_call_ok _ _ Hok)).
      rewrite (bind_run _ _ _ _ _ _ (eq_refl (modify _ _))). cbn [out after].
      rewrite IH.
      * cbn [List.filter length]. simpl faults. simpl modlog.
        f_equal. lia.
      * simpl. destruct (faults w Remove); [done|]. by inversion Hrm.
    + by rewrite (IH (S i) n (consume ModLog w)).
  - by rewrite IH.
Qed.

Lemma sweep_flags_length (lf : list fault) (log : list log_entry)
    (items : list item) :
  length (sweep_flags lf log items) = length items.
Proof.
  revert lf. induction items as [|it items IH]; intros lf; [done|].
  simpl. destruct (is_comment it); simpl; by rewrite IH.
Qed.

Lemma count_true_by_index (fl : list bool) (s n : nat) :
  (length fl <= n)%nat ->
  length (List.filter (fun b : bool => b) fl)
  = length (List.filter (fun k => default false (fl !! (k - s)%nat)) (seq s n)).
Proof.
  revert s n. induction fl as [|b fl IH]; intros s n Hn.
  - clear Hn.
    rewrite (filter_ext (fun k => default false (@nil bool !! (k - s)%nat))
               (fun _ => false))
      by (intros k; cbv beta; by rewrite lookup_nil).
    by induction (seq s n).
  - destruct n as [|n]; [simpl in Hn; lia|].
    assert (He : List.filter (fun k => default false ((b :: fl) !! (k - s)%nat))
                   (seq (S s) n)
                 = List.filter (fun k => default false (fl !! (k - S s)%nat))
                     (seq (S s) n)).
    { apply filter_ext_in. intros k Hk. apply in_seq in Hk.
      by replace (k - s)%nat with (S (k - S s)) by lia. }
    change (seq s (S n)) with (s :: seq (S s) n).
    cbn [List.filter]. rewrite Nat.sub_diag, He.
    change ((b :: fl) !! 0%nat) with (Some b). cbn [default].
    specialize (IH (S s) n). simpl in Hn.
    destruct b; cbn [length]; rewrite IH by lia; done.
Qed.

(** X14: in a sweep whose queue fetch and removals go through, the count
    written to the log at the end is the number of entries, among the
    first 25 positions of the queue, that the sweep marks. *)
Theorem sweep_logs_marked_count (sub bot : string) (w : world) :
  fails_next ModQueue w = false ->
  Forall (fun f : fault => f = None) (faults w Remove) ->
  exists pre,
    events (monitor_modqueue_for_crowd_control sub bot w)
    = pre ++ [Log INFO
                ("Total comments flagged as spam this cycle: "
                 +:+ str_of_Z (Z.of_nat
                       (length (List.filter (swept_at w) (seq 0 25)))))].
Proof.
  intros Hq Hrm. unfold monitor_modqueue_for_crowd_control.
  rewrite (bind_run _ _ _ _ _ _ (api_call_ok _ _ Hq)).
  rewrite (bind_run _ _ _ _ _ _ (eq_refl (get _ _))). rewrite !after_nil.
  pose proof (sweep_loop_count bot (take 25 (modqueue (consume ModQueue w)))
                0 0 (consume ModQueue w) Hrm) as Hout.
  rewrite (bind_returns _ _ _ _ Hout).
  change (faults (consume ModQueue w) ModLog) with (faults w ModLog).
  change (modlog (consume ModQueue w)) with (modlog w).
  change (modqueue (consume ModQueue w)) with (modqueue w).
  rewrite Z.add_0_l.
  rewrite (count_true_by_index _ 0 25)
    by (rewrite sweep_flags_length, length_take; lia).
  assert (He : List.filter
                 (fun k => default false
                    (sweep_flags (faults w ModLog) (modlog w)
                       (take 25 (modqueue w)) !! (k - 0)%nat)) (seq 0 25)
               = List.filter (swept_at w) (seq 0 25)).
  2: { rewrite He. eexists. cbn [events after logger_info emit]. reflexivity. }
  apply filter_ext. intros k. rewrite Nat.sub_0_r.
  unfold swept_at. destruct (modqueue w !! k) as [it|] eqn:Hk.
  - by apply swept_flag.
  - rewrite sweep_flags_lookup, lookup_take.
    case_decide; [by rewrite Hk | done].
Qed.

Lemma sweep_logs_marked_count_witness :
  fails_next ModQueue busy_queue = false /\
  Forall (fun f : fault => f = None) (faults busy_queue Remove) /\
  exists pre,
    events (monitor_modqueue_for_crowd_control "boston" "bostonbot" busy_queue)
    = pre ++ [Log INFO
                ("Total comments flagged as spam this cycle: "
                 +:+ str_of_Z (Z.of_nat
                       (length (List.filter (swept_at busy_queue) (seq 0 25)))))].
Proof.
  assert (H : Forall (fun f : fault => f = None) (faults busy_queue Remove))
    by constructor.
  split; [reflexivity | split; [exact H|]].
  exact (sweep_logs_marked_count "boston" "bostonbot" busy_queue eq_refl H).
Defined.

(** ** The cycle as a whole *)

(** X15: [main_logic] returns normally in every world.  When its body
    raises, the run is the body's run followed by one error line in the
    log; when the body returns, it is the body's run. *)
Theorem main_logic_absorbs (cfg : config) (w : world) :
  out (main_logic cfg w) = Returns tt
  /\ (forall c msg,
        out (main_logic_body cfg w) = Raises (Exception c msg) ->
        main_logic cfg w
        = {| out := Returns tt;
             final := final (main_logic_body cfg w);
             events := events (main_logic_body cfg w)
                       ++ [Log ERROR ("Unexpected error in main_logic: "
                                      +:+ msg)] |})
  /\ (out (main_logic_body cfg w) = Returns tt ->
      main_logic cfg w = main_logic_body cfg w).
Proof.
  split; [apply main_logic_returns|]. split.
  - intros c msg Ho. unfold main_logic.
    by rewrite (try_except_caught _ _ _ _ _ Ho).
  - intros Ho. unfold main_logic. by rewrite (try_except_returns _ _ _ _ Ho).
Qed.

Lemma main_logic_absorbs_witness :
  out (main_logic_body sample_config mbta_down)
  = Raises (Exception StdException "Connection refused") /\
  main_logic sample_config mbta_down
  = {| out := Returns tt;
       final := final (main_logic_body sample_config mbta_down);
       events := events (main_logic_body sample_config mbta_down)
                 ++ [Log ERROR ("Unexpected error in main_logic: "
                                +:+ "Connection refused")] |}.
Proof.
  split; [reflexivity|].
  exact (proj1 (proj2 (main_logic_absorbs sample_config mbta_down))
           StdException "Connection refused" eq_refl).
Defined.

(** X16: the main loop never ends by itself: any number of turns returns,
    and each turn is one call of [main_logic] through the wrapper followed
    by the five-minute sleep, the next turn starting in the world that
    call left. *)
Theorem run_turns (cfg : config) (n : nat) (w : world) :
  out (run cfg n w) = Returns tt
  /\ run cfg (S n) w
     = after (Call :: events (main_logic cfg w) ++ [Sleep 300])
         (run cfg n (final (main_logic cfg w))).
Proof.
  split; [apply run_returns|].
  cbn [run]. by rewrite (bind_run _ _ _ _ _ _ (cycle_runs_once cfg w)).
Qed.

Lemma alerts_loop_final (min_sev : Z) (alerts : list alert) (text : string)
    (w : world) :
  final (alerts_loop min_sev alerts text w) = w.
Proof.
  revert text. induction alerts as [|a alerts IH]; intros text; [done|].
  cbn [alerts_loop]. destruct (severity a) as [sev|]; [|done].
  destruct (sev >=? min_sev)%Z; [|apply IH].
  destruct (service_effect a) as [se|]; [|done].
  destruct (negb _); apply IH.
Qed.

Lemma get_mbta_delays_final (key : string) (min_sev : Z) (w : world) :
  final (get_mbta_delays key min_sev w) = consume MbtaGet w.
Proof.
  unfold get_mbta_delays, bind, api_call, get.
  destruct (faults w MbtaGet) as [|[[c msg]|] l]; cbn [out final events after];
    try done;
    destruct (_ =? 200)%Z; try done;
    destruct (json _); try done; apply alerts_loop_final.
Qed.





Lemma get_weather_final (key : string) (w : world) :
  final (get_weather key w) = consume WeatherGet w.
Proof.
  unfold get_weather, bind, api_call, get. cbn [out final events after].
  destruct (faults w WeatherGet) as [|[[c msg]|] l]; cbn [out final events after];
    try done; by destruct (_ =? 200)%Z.
Qed.

Lemma get_weather_after_mbta (key : string) (w : world) :
  out (get_weather key (consume MbtaGet w)) = out (get_weather key w).
Proof.
  unfold get_weather, bind, api_call, get.
  cbn [out final events after consume set_faults faults now_hour weather_api
       endpoint_eqb].
  destruct (faults w WeatherGet) as [|[[c msg]|] l]; cbn [out final events after];
    try done; by destruct (_ =? 200)%Z.
Qed.

(** X18: an exception in either fetcher ends the cycle on the spot: the
    error is logged by [main_logic], which returns, and neither the
    listing nor the moderation queue is touched, so that cycle neither
    refreshes the status comment nor sweeps the queue. *)
Theorem fetch_error_skips_cycle (cfg : config) (w : world)
    (c : exn_class) (msg : string) :
  out (get_mbta_delays (api_key cfg) min_severity w) = Raises (Exception c msg)
  \/ ((exists m, out (get_mbta_delays (api_key cfg) min_severity w) = Returns m)
      /\ out (get_weather (weather_api_key cfg) w) = Raises (Exception c msg)) ->
  out (main_logic cfg w) = Returns tt
  /\ hot (final (main_logic cfg w)) = hot w
  /\ modqueue (final (main_logic cfg w)) = modqueue w
  /\ exists pre,
       events (main_logic cfg w)
       = pre ++ [Log ERROR ("Unexpected error in main_logic: " +:+ msg)].
Proof.
  intros H. split; [apply main_logic_returns|].
  assert (Hbody : out (main_logic_body cfg w) = Raises (Exception c msg)
                  /\ hot (final (main_logic_body cfg w)) = hot w
                  /\ modqueue (final (main_logic_body cfg w)) = modqueue w).
  { unfold main_logic_body.
    rewrite (bind_run _ _ _ _ _ _ (eq_refl (logger_info _ w))).
    destruct H as [Hm|[[m Hm] Hw]].
    - rewrite (bind_raises _ _ _ _ Hm). cbn [out final after].
      by rewrite get_mbta_delays_final.
    - rewrite (bind_returns _ _ _ _ Hm), get_mbta_delays_final.
      rewrite (bind_run _ _ _ _ _ _ (eq_refl (logger_info _ _))).
      rewrite <- get_weather_after_mbta in Hw.
      rewrite (bind_raises _ _ _ _ Hw). cbn [out final after].
      by rewrite get_weather_final. }
  destruct Hbody as (Ho & Hh & Hq). unfold main_logic.
  rewrite (try_except_caught _ _ _ _ _ Ho).
  cbn [out final events after logger_error emit]. eauto.
Qed.

Lemma fetch_error_skips_cycle_witness :
  (out (get_mbta_delays (api_key sample_config) min_severity mbta_down)
   = Raises (Exception StdException "Connection refused")
   \/ ((exists m, out (get_mbta_delays (api_key sample_config) min_severity
                         mbta_down) = Returns m)
       /\ out (get_weather (weather_api_key sample_config) mbta_down)
          = Raises (Exception StdException "Connection refused")))
  /\ out (main_logic sample_config mbta_down) = Returns tt
  /\ hot (final (main_logic sample_config mbta_down)) = hot mbta_down
  /\ modqueue (final (main_logic sample_config mbta_down)) = modqueue mbta_down
  /\ exists pre,
       events (main_logic sample_config mbta_down)
       = pre ++ [Log ERROR ("Unexpected error in main_logic: "
                            +:+ "Connection refused")].
Proof.
  assert (H : out (get_mbta_delays (api_key sample_config) min_severity mbta_down)
              = Raises (Exception StdException "Connection refused")
              \/ ((exists m, out (get_mbta_delays (api_key sample_config)
                                    min_severity mbta_down) = Returns m)
                  /\ out (get_weather (weather_api_key sample_config) mbta_down)
                     = Raises (Exception StdException "Connection refused")))
    by (left; reflexivity).
  split; [exact H|].
  exact (fetch_error_skips_cycle sample_config mbta_down StdException
           "Connection refused" H).
Defined.

Lemma grows_refl (h : list post) : grows h h.
Proof. induction h; constructor; auto. Qed.

Lemma grows_trans (a b c : list post) : grows a b -> grows b c -> grows a c.
Proof.
  intros Hab. revert c. induction Hab as [|x y a b Hxy _ IH]; intros c Hbc;
    inversion Hbc as [|y' z b' c' Hyz Hbc']; subst; constructor; [|by apply IH].
  destruct Hxy as (Hs1 & Ht1 & Hl1), Hyz as (Hs2 & Ht2 & Hl2).
  repeat split; [congruence | congruence | lia].
Qed.

Lemma grows_reply (text : string) (i : nat) (h : list post) :
  grows h (alter (add_comment text) i h).
Proof.
  apply Forall2_alter_r; [apply grows_refl|].
  intros x y _ _ (Hs & Ht & Hl). simpl. rewrite length_app. simpl.
  repeat split; [done..|lia].
Qed.

Lemma grows_edit (text : string) (i j : nat) (h : list post) :
  grows h (alter (set_body j text) i h).
Proof.
  apply Forall2_alter_r; [apply grows_refl|].
  intros x y _ _ (Hs & Ht & Hl). simpl. rewrite length_insert. by repeat split.
Qed.

(** X19: a cycle never deletes anything from the listing, whatever
    fails: afterwards the listing has the same posts, in place, with the
    same pinned flag and title, and none has fewer comments. *)
Theorem main_logic_never_deletes (cfg : config) (w : world) :
  grows (hot w) (hot (final (main_logic cfg w)))
  /\ length (hot (final (main_logic cfg w))) = length (hot w).
Proof.
  assert (H : grows (hot w) (hot (final (main_logic cfg w)))).
  { apply (keeps_main_logic grows grows_refl grows_trans (fun _ => True)).
    - intros text i h _. apply grows_reply.
    - intros text i j h _. apply grows_edit.
    - done. }
  split; [done|]. symmetry. apply (Forall2_length _ _ _ H).
Qed.
